(** * Alias bootstrap of the mc client: trust prompt, signature probe,
      LDAP STS exchange and alias record (cmd/alias-set.go). *)

From Stdlib Require Import String Ascii ZArith List Bool Lia.
From stdpp Require Import base gmap strings.

Import ListNotations.
Open Scope Z_scope.
Open Scope string_scope.

(** ** Go values used by the code *)

(** [time.Time] as nanoseconds since Go's zero instant
    (January 1, year 1, UTC); location and monotonic reading are not
    modelled.  [time.Duration] is a number of nanoseconds. *)
Definition Time := Z.
Definition Duration := Z.

Definition Nanosecond : Duration := 1.
Definition Second : Duration := 1000000000.
Definition Minute : Duration := 60 * Second.
Definition Hour : Duration := 60 * Minute.

(** The zero value of [time.Time]. *)
Definition zeroTime : Time := 0.

(** Seconds from January 1, year 1 to January 1, 1970 (Go's
    [unixToInternal]). *)
Definition unixToInternal : Z := 62135596800.

(** [time.Unix(sec, nsec)]. *)
Definition Unix (sec nsec : Z) : Time := (sec + unixToInternal) * Second + nsec.

(** [t.Add(d)]. *)
Definition Add (t : Time) (d : Duration) : Time := t + d.

(** [time.Time.IsZero]. *)
Definition IsZero (t : Time) : bool := Z.eqb t zeroTime.

(** The constants of the alias-set command. *)
Definition StsDefaultExpire : Duration := Hour * 1.
Definition StsWindowTime : Duration := Minute * 10.

(** Go errors that the code inspects: a plain error with its message,
    the mc [BucketDoesNotExist] error, and a minio-go [ErrorResponse]
    with its S3 error code. *)
Inductive goerror :=
| ErrMsg (msg : string)
| BucketDoesNotExist (bucket : string)
| ErrorResponse (code msg : string).

(** [minio.ToErrorResponse(e).Code]: an [ErrorResponse] keeps its code,
    any other error becomes the empty [ErrorResponse{}]. *)
Definition ToErrorResponseCode (e : goerror) : string :=
  match e with
  | ErrorResponse code _ => code
  | _ => ""
  end.

(** [*probe.Error]: the cause and the trace frames added by [Trace]. *)
Record perror := mkPerror { cause : goerror; frames : list (list string) }.

(** [probe.NewError(e)] for a non-nil [e]. *)
Definition NewError (e : goerror) : perror := mkPerror e [].

(** [err.Trace(args...)]. *)
Definition Trace (err : perror) (args : list string) : perror :=
  mkPerror (cause err) (frames err ++ [args]).

(** [err.ToGoError()]. *)
Definition ToGoError (err : perror) : goerror := cause err.

(** ** Strings *)

(** [strings.HasPrefix]. *)
Fixpoint HasPrefix (s prefix : string) : bool :=
  match prefix, s with
  | EmptyString, _ => true
  | String c p, String d s' => Ascii.eqb c d && HasPrefix s' p
  | String _ _, EmptyString => false
  end.

(** [strings.Contains]. *)
Fixpoint Contains (s substr : string) : bool :=
  HasPrefix s substr ||
  match s with
  | EmptyString => false
  | String _ s' => Contains s' substr
  end.

(** [strings.ToLower] on a byte string: ASCII upper-case letters are
    lowered, every other byte is kept (Go's ASCII fast path). *)
Definition lowerAscii (c : ascii) : ascii :=
  let n := nat_of_ascii c in
  if (65 <=? n)%nat && (n <=? 90)%nat then ascii_of_nat (n + 32) else c.

Fixpoint ToLower (s : string) : string :=
  match s with
  | EmptyString => EmptyString
  | String c s' => String (lowerAscii c) (ToLower s')
  end.

Definition newline : ascii := ascii_of_nat 10.
Definition nl : string := String newline EmptyString.

(** [bufio.NewReader(r).ReadString('\n')] on the bytes [r] still holds:
    the bytes up to and including the first newline, or every byte and
    [io.EOF] when there is no newline. *)
Fixpoint ReadString (r : string) : string * option goerror :=
  match r with
  | EmptyString => (EmptyString, Some (ErrMsg "EOF"))
  | String c r' =>
      if Ascii.eqb c newline then (String c EmptyString, None)
      else let '(s, e) := ReadString r' in (String c s, e)
  end.

(** [err.Error()]. *)
Definition Error (e : goerror) : string :=
  match e with
  | ErrMsg msg => msg
  | BucketDoesNotExist b => "Bucket `" ++ b ++ "` does not exist."
  | ErrorResponse _ msg => msg
  end.

(** ** Certificates and certificate pools *)

(** The fields of [*x509.Certificate] that the code reads. *)
Record Certificate := mkCertificate {
  Raw : list Z;
  RawSubjectPublicKeyInfo : list Z;
  SubjectKeyId : list Z;
  AuthorityKeyId : list Z
}.

(** [bytes.Equal]. *)
Definition bytesEqual (a b : list Z) : bool := bool_decide (a = b).

(** A [*x509.CertPool] by its certificates.  [AddCert] does nothing for a
    certificate already in the pool (Go keys the pool by a digest of
    [Raw]). *)
Definition CertPool := list Certificate.

Definition AddCert (pool : CertPool) (c : Certificate) : CertPool :=
  if existsb (fun d => bytesEqual (Raw d) (Raw c)) pool then pool else (pool ++ [c])%list.

(** ** promptTrustSelfSignedCert *)

(** The observable effects of the trust prompt, in order: an HTTPS GET
    (with certificate verification against [RootCAs] when [verify] is
    true, with [InsecureSkipVerify] otherwise), the fingerprint prompt
    (alias and the public-key info whose SHA-256 is shown), the read of
    the answer from standard input, and the write of the PEM of a
    certificate's [Raw] bytes to [<CAs dir>/<name>]. *)
Inductive event :=
| EvGet (verify : bool)
| EvPrompt (alias : string) (spki : list Z)
| EvReadStdin
| EvWriteFile (name : string) (contents : list Z).

(** What the outside world answers to the calls of the trust prompt.
    [newRequest]: [http.NewRequestWithContext] fails or gives the URL
    scheme of the endpoint; [doRootCAs]: the error of [client.Do] over
    [globalRootCAs] ([None] when the request succeeds); [fetchDo]: the
    error of the [InsecureSkipVerify] request of [fetchPeerCertificate]
    or the peer certificates of its response ([[]] when [resp.TLS] is
    nil or empty); [stdin]: the bytes on standard input; [writeErr]: the
    error of [os.WriteFile], if any. *)
Record tofuWorld := mkTofuWorld {
  newRequest : goerror + string;
  doRootCAs : option goerror;
  fetchDo : goerror + list Certificate;
  stdin : string;
  writeErr : option goerror
}.

(** [fetchPeerCertificate(ctx, endpoint)], with the effects it has. *)
Definition fetchPeerCertificate (w : tofuWorld) : (goerror + Certificate) * list event :=
  match newRequest w with
  | inl e => (inl e, [])
  | inr _ =>
      match fetchDo w with
      | inl e => (inl e, [EvGet false])
      | inr [] => (inl (ErrMsg "Unable to read remote TLS certificate"), [EvGet false])
      | inr (c :: _) => (inr c, [EvGet false])
      end
  end.

Definition unknownAuthority : string := "certificate signed by unknown authority".

(** [promptTrustSelfSignedCert(ctx, endpoint, alias)]: the returned
    [( *x509.Certificate, *probe.Error)] pair ([None] for nil) and the
    effects performed, in order. *)
Definition promptTrustSelfSignedCert (w : tofuWorld) (alias : string)
  : (option Certificate * option perror) * list event :=
  match newRequest w with
  | inl e => ((None, Some (NewError e)), [])
  | inr scheme =>
      (* no need to probe certs for http endpoints. *)
      if String.eqb scheme "http" then ((None, None), []) else
      match doRootCAs w with
      | None => ((None, None), [EvGet true])
      | Some tlsErr =>
          if negb (Contains (Error tlsErr) unknownAuthority)
          then ((None, Some (NewError tlsErr)), [EvGet true]) else
          let '(fetched, evFetch) := fetchPeerCertificate w in
          let ev1 := EvGet true :: evFetch in
          match fetched with
          | inl e => ((None, Some (NewError e)), ev1)
          | inr peerCert =>
              if negb (bytesEqual (SubjectKeyId peerCert) (AuthorityKeyId peerCert))
              then ((None, Some (NewError tlsErr)), ev1) else
              let ev2 := (ev1 ++ [EvPrompt alias (RawSubjectPublicKeyInfo peerCert); EvReadStdin])%list in
              let '(answer, readErr) := ReadString (stdin w) in
              match readErr with
              | Some e => ((None, Some (NewError e)), ev2)
              | None =>
                  let answer := ToLower answer in
                  if negb (String.eqb answer ("y" ++ nl)) && negb (String.eqb answer ("yes" ++ nl))
                  then ((None, Some (NewError tlsErr)), ev2) else
                  let ev3 := (ev2 ++ [EvWriteFile (alias ++ ".crt") (Raw peerCert)])%list in
                  match writeErr w with
                  | Some e => ((None, Some (NewError e)), ev3)
                  | None => ((Some peerCert, None), ev3)
                  end
              end
          end
      end
  end.

(** ** prepareStsClient *)

(** [p != nil] for a pointer modelled as an option. *)
Definition notNil {A} (p : option A) : bool :=
  match p with Some _ => true | None => false end.

(** The [*tls.Config] of the STS client. *)
Record tlsConfig := mkTlsConfig {
  RootCAs : option CertPool;
  InsecureSkipVerify : bool;
  MinVersion : Z
}.

Definition VersionTLS12 : Z := 771.

(** [prepareStsClient(peerCert, url)], where [schem] is the scheme that
    [getScheme(url)] returns.  [globalRootCAs] is the process-wide pool
    ([None] for a nil pool); [cas] points to that same pool, so each
    [AddCert] on [cas] updates the process-wide pool too.  The result is
    the process-wide pool after the call with the client's TLS config, or
    [None] when [cas.AddCert] is called on a nil pool, which panics. *)
Definition prepareStsClient (globalRootCAs : option CertPool)
  (peerCert : option Certificate) (schem : string)
  : option (option CertPool * tlsConfig) :=
  let global1 :=
    match globalRootCAs, peerCert with
    | Some g, Some c => Some (AddCert g c)
    | g, _ => g
    end in
  let cas := global1 in
  let cas' :=
    match peerCert with
    | None => Some cas
    | Some c =>
        match cas with
        | None => None
        | Some p => Some (Some (AddCert p c))
        end
    end in
  match cas' with
  | None => None
  | Some cas2 =>
      let insecure := negb (String.eqb schem "http") && notNil peerCert in
      Some (cas2, mkTlsConfig cas2 insecure VersionTLS12)
  end.

(** ** probeS3Signature *)

(** What the server answers to the probe: [S3New] fails or not for the
    config signed with a dialect, and the error of [s3Client.Stat] under
    that dialect ([None] when the stat succeeds). *)
Record probeWorld := mkProbeWorld {
  S3New : string -> option perror;
  Stat : string -> option perror
}.

(** [probeSignatureType(stype)]: the dialect and error it returns, and
    the dialects whose client was built and asked for [Stat]. *)
Definition probeSignatureType (w : probeWorld) (stype : string)
  : (string * option perror) * list string :=
  match S3New w stype with
  | Some err => (("", Some err), [])
  | None =>
      match Stat w stype with
      | None => ((stype, None), [stype])
      | Some err =>
          let e := ToGoError err in
          match e with
          | BucketDoesNotExist _ => ((stype, None), [stype])
          | _ =>
              if String.eqb (ToErrorResponseCode (ToGoError err)) "AccessDenied"
              then ((stype, None), [stype])
              else (("", Some (Trace err [stype])), [stype])
          end
      end
  end.

(** [probeS3Signature(...)]: v4 first, v2 when v4 fails. *)
Definition probeS3Signature (w : probeWorld) : (string * option perror) * list string :=
  let '((stype, err), ev4) := probeSignatureType w "s3v4" in
  match err with
  | None => ((stype, None), ev4)
  | Some _ =>
      let '((stype2, err2), ev2) := probeSignatureType w "s3v2" in
      match err2 with
      | Some e2 => (("", Some (Trace e2 ["s3v4"; "s3v2"])), (ev4 ++ ev2)%list)
      | None => ((stype2, None), (ev4 ++ ev2)%list)
      end
  end.

(** ** Alias configuration *)

(** [aliasConfigV10]. *)
Record aliasConfigV10 := mkAliasConfigV10 {
  URL : string;
  AccessKey : string;
  SecretKey : string;
  SessionToken : string;
  API : string;
  Path : string;
  AType : string;
  StsAccessKey : string;
  StsSecretKey : string;
  StsSessionTk : string;
  ExpireTime : Time
}.

(** The S3 [Config] fields that [BuildS3Config] sets or reads. *)
Module S3.
Record Config := mkConfig {
  HostURL : string;
  AccessKey : string;
  SecretKey : string;
  SessionToken : string;
  Signature : string
}.
End S3.

(** [aliasConfigV10] with only the fields [BuildS3Config] fills in. *)
Definition partialAliasConfig (accessKey secretKey sessionToken url path : string) : aliasConfigV10 :=
  mkAliasConfigV10 url accessKey secretKey sessionToken "" path "" "" "" "" zeroTime.

Section Bootstrap.

(** [NewS3Config(url, aliasCfg)] lives in another file of the package;
    the development holds for any such constructor. *)
Variable NewS3Config : string -> aliasConfigV10 -> S3.Config.

(** [BuildS3Config(...)]: the config or the error, and the dialects the
    signature probe tried ([[]] when it did not run).  The transport
    changes of [configurePeerCertificate] are not modelled. *)
Definition BuildS3Config (pw : probeWorld)
  (url alias accessKey secretKey sessionToken api path : string)
  (peerCert : option Certificate)
  : (option S3.Config * option perror) * list string :=
  let s3Config := NewS3Config url (partialAliasConfig accessKey secretKey sessionToken url path) in
  if negb (String.eqb api "") then
    ((Some (S3.mkConfig (S3.HostURL s3Config) (S3.AccessKey s3Config) (S3.SecretKey s3Config)
              (S3.SessionToken s3Config) api), None), [])
  else
    let '((api', err), ev) := probeS3Signature pw in
    match err with
    | Some e => ((None, Some (Trace e [url; accessKey; secretKey; api'; path])), ev)
    | None =>
        ((Some (S3.mkConfig (S3.HostURL s3Config) (S3.AccessKey s3Config) (S3.SecretKey s3Config)
                  (S3.SessionToken s3Config) api'), None), ev)
    end.

(** [getStsWithLDAP(endpoint, ldapUser, ldapPassword, peerCert)]: the
    LDAP STS exchange of minio-go over the client of [prepareStsClient];
    it gives the STS access key, secret key and session token, or an
    error.  The development holds for any outcome of the exchange. *)
Variable getStsWithLDAP :
  string -> string -> string -> option Certificate -> goerror + (string * string * string).

Definition globalMCConfigVersion : string := "10".

(** [setAlias(alias, aliasCfgV10)]: [loadMcConfig] gives the aliases of
    the configuration file or an error, [saveErr] is the error of
    [saveMcConfig].  A non-nil error is fatal; otherwise the aliases
    written back are returned. *)
Definition setAlias (loaded : perror + gmap string aliasConfigV10) (saveErr : option perror)
  (alias : string) (cfg : aliasConfigV10) : perror + gmap string aliasConfigV10 :=
  match loaded with
  | inl err => inl (Trace err [globalMCConfigVersion])
  | inr aliases =>
      let aliases' := <[alias := cfg]> aliases in
      match saveErr with
      | Some err => inl (Trace err [alias])
      | None => inr aliases'
      end
  end.

(** The arguments of [mc alias set] once [fetchAliasKeys] has read the
    keys and [checkAliasSetSyntax] accepted them: the cleaned alias, the
    URL without trailing separator, the [--api], [--path] and [--type]
    flags, the keys, and [cli.Args()]. *)
Record aliasSetArgs := mkAliasSetArgs {
  a_alias : string;
  a_url : string;
  a_api : string;
  a_path : string;
  a_type : string;
  a_accessKey : string;
  a_secretKey : string;
  a_args : list string
}.

(** The process and the outside world seen by [mainAliasSet]. *)
Record aliasSetWorld := mkAliasSetWorld {
  ldapEnabled : string;          (* env CONSOLE_LDAP_ENABLED, default "off" *)
  globalInsecure : bool;
  globalJSON : bool;
  stdoutIsTerminal : bool;
  tofu : tofuWorld;              (* the trust prompt's world *)
  now : Time;                    (* time.Now() before the STS exchange *)
  probeW : probeWorld;
  loadMcConfig : perror + gmap string aliasConfigV10;
  saveMcConfig : option perror
}.

(** The credential type after the [--type] switch. *)
Definition resolveType (ctype ldapEnv : string) : string :=
  if String.eqb ctype "" || String.eqb ctype "auto" then
    if String.eqb (ToLower ldapEnv) "on" then "ldap" else "normal"
  else ctype.

(** How [mainAliasSet] ends: [fatalIf] exits with an error, or the alias
    is stored and the aliases written to the configuration file are
    returned.  The dialects tried by the signature probe come with it. *)
Inductive outcome :=
| Fatal (err : perror)
| Stored (aliases : gmap string aliasConfigV10).

Definition mainAliasSet (a : aliasSetArgs) (w : aliasSetWorld) : outcome * list string :=
  let alias := a_alias a in
  let url := a_url a in
  let ctype := resolveType (a_type a) (ldapEnabled w) in
  let accessKey := a_accessKey a in
  let secretKey := a_secretKey a in
  let trust :=
    if negb (globalInsecure w) && negb (globalJSON w) && stdoutIsTerminal w
    then fst (promptTrustSelfSignedCert (tofu w) alias)
    else (None, None) in
  match trust with
  | (_, Some err) => (Fatal (Trace err (a_args a)), [])
  | (peerCert, None) =>
      let sts :=
        if String.eqb ctype "ldap" then
          let now := now w in
          match getStsWithLDAP url accessKey secretKey peerCert with
          | inl e => inl (Trace (NewError e) (a_args a))
          | inr (stsAccessKey, stsSecretKey, stsSessionTk) =>
              inr (stsAccessKey, stsSecretKey, stsSessionTk,
                   Add (Add now StsDefaultExpire) (- StsWindowTime))
          end
        else inr (accessKey, secretKey, "", Unix 0 0) in
      match sts with
      | inl err => (Fatal err, [])
      | inr (stsAccessKey, stsSecretKey, stsSessionTk, stsExpireTime) =>
          let '((s3c, err), ev) :=
            BuildS3Config (probeW w) url alias stsAccessKey stsSecretKey stsSessionTk
              (a_api a) (a_path a) peerCert in
          match err, s3c with
          | Some err, _ => (Fatal (Trace err (a_args a)), ev)
          (* unreachable: BuildS3Config gives a config whenever its error is nil *)
          | None, None => (Fatal (NewError (ErrMsg "nil config")), ev)
          | None, Some s3Config =>
              let cfg := mkAliasConfigV10 (S3.HostURL s3Config) accessKey secretKey ""
                           (S3.Signature s3Config) (a_path a) ctype
                           stsAccessKey stsSecretKey stsSessionTk stsExpireTime in
              match setAlias (loadMcConfig w) (saveMcConfig w) alias cfg with
              | inl err => (Fatal err, ev)
              | inr aliases => (Stored aliases, ev)
              end
          end
      end
  end.

End Bootstrap.

(** ** configurePeerCertificate *)

(** The [*http.Transport] of an S3 [Config], by its TLS client config;
    the dialer and timeout settings are not modelled. *)
Record transport := mkTransport { TLSClientConfig : option tlsConfig }.

(** [&tls.Config{RootCAs: pool}]: every other field at its zero value. *)
Definition rootsOnly (pool : option CertPool) : tlsConfig := mkTlsConfig pool false 0.

(** [configurePeerCertificate(s3Config, peerCert)] on the config's
    transport ([None] for a nil transport) and the process-wide pool
    [globalRootCAs] ([None] for nil).  The result is the process-wide
    pool and the transport afterwards.  The new TLS configs of the first
    two cases point to the process-wide pool, so their [RootCAs] is that
    pool after the [AddCert].  Pools are values here: in the last case,
    when the transport's [RootCAs] is the process-wide pool object itself
    (an earlier run of the first two cases, then a second call on the
    same transport), Go's [AddCert] also changes the process-wide pool,
    and this model leaves [globalRootCAs] as it was. *)
Definition configurePeerCertificate (globalRootCAs : option CertPool)
  (tr : option transport) (peerCert : Certificate) : option CertPool * transport :=
  let viaGlobal :=
    let g := match globalRootCAs with
             | Some p => Some (AddCert p peerCert)
             | None => None
             end in
    (g, mkTransport (Some (rootsOnly g))) in
  match tr with
  | None => viaGlobal
  | Some t =>
      match TLSClientConfig t with
      | None => viaGlobal
      | Some c =>
          match RootCAs c with
          | None => viaGlobal
          | Some p =>
              (globalRootCAs,
               mkTransport (Some (mkTlsConfig (Some (AddCert p peerCert))
                                    (InsecureSkipVerify c) (MinVersion c))))
          end
      end
  end.

(** ** The deprecated [--lookup] flag *)

(** *** strings.TrimSpace *)

Section StringsTrimSpace.
Local Open Scope Z_scope.

(** The value of a byte. *)
Definition byteOf (c : ascii) : Z := Z.of_N (N_of_ascii c).

(** [utf8.RuneSelf], [utf8.RuneError], [utf8.UTFMax]. *)
Definition RuneSelf : Z := 128.
Definition RuneError : Z := 65533.
Definition UTFMax : Z := 4.

(** The bounds of a continuation byte, [locb] and [hicb]. *)
Definition locb : Z := 128.
Definition hicb : Z := 191.

(** The [first] table of package utf8 for a byte of at least [RuneSelf]:
    [None] for [xx] (not the first byte of a valid sequence), otherwise
    the size of the sequence and the [acceptRanges] entry for its second
    byte. *)
Definition first (b : Z) : option (nat * Z * Z) :=
  if b <? 194 then None
  else if b <=? 223 then Some (2%nat, locb, hicb)
  else if b =? 224 then Some (3%nat, 160, hicb)
  else if b <=? 236 then Some (3%nat, locb, hicb)
  else if b =? 237 then Some (3%nat, locb, 159)
  else if b <=? 239 then Some (3%nat, locb, hicb)
  else if b =? 240 then Some (4%nat, 144, hicb)
  else if b <=? 243 then Some (4%nat, locb, hicb)
  else if b =? 244 then Some (4%nat, locb, 143)
  else None.

Definition outside (lo hi b : Z) : bool := (b <? lo) || (hi <? b).

(** [utf8.DecodeRuneInString(s)]: the first rune and its width; an
    invalid sequence gives [RuneError] of width 1. *)
Definition DecodeRuneInString (s : list ascii) : Z * nat :=
  match s with
  | [] => (RuneError, 0%nat)
  | c0 :: rest0 =>
      let s0 := byteOf c0 in
      if s0 <? RuneSelf then (s0, 1%nat) else
      match first s0 with
      | None => (RuneError, 1%nat)
      | Some (sz, lo, hi) =>
          if (length s <? sz)%nat then (RuneError, 1%nat) else
          match rest0 with
          | [] => (RuneError, 1%nat)
          | c1 :: rest1 =>
              let s1 := byteOf c1 in
              if outside lo hi s1 then (RuneError, 1%nat) else
              if (sz <=? 2)%nat then (Z.lor (Z.shiftl (Z.land s0 31) 6) (Z.land s1 63), 2%nat) else
              match rest1 with
              | [] => (RuneError, 1%nat)
              | c2 :: rest2 =>
                  let s2 := byteOf c2 in
                  if outside locb hicb s2 then (RuneError, 1%nat) else
                  if (sz <=? 3)%nat then
                    (Z.lor (Z.lor (Z.shiftl (Z.land s0 15) 12) (Z.shiftl (Z.land s1 63) 6))
                       (Z.land s2 63), 3%nat)
                  else
                  match rest2 with
                  | [] => (RuneError, 1%nat)
                  | c3 :: _ =>
                      let s3 := byteOf c3 in
                      if outside locb hicb s3 then (RuneError, 1%nat) else
                      (Z.lor (Z.lor (Z.lor (Z.shiftl (Z.land s0 7) 18) (Z.shiftl (Z.land s1 63) 12))
                                    (Z.shiftl (Z.land s2 63) 6)) (Z.land s3 63), 4%nat)
                  end
              end
          end
      end
  end.

(** [utf8.RuneStart(b)]: [b] is no continuation byte. *)
Definition RuneStart (b : Z) : bool := negb (Z.land b 192 =? 128).

(** The loop [for start--; start >= lim; start-- { if RuneStart(s[start]) { break } }]
    of [utf8.DecodeLastRuneInString], from its first decrement on. *)
Fixpoint scanRuneStart (fuel : nat) (s : list ascii) (start lim : Z) : Z :=
  match fuel with
  | O => start
  | S f =>
      if start <? lim then start
      else if RuneStart (byteOf (nth (Z.to_nat start) s "000"%char)) then start
      else scanRuneStart f s (start - 1) lim
  end.

(** [utf8.DecodeLastRuneInString(s)]: the last rune and its width. *)
Definition DecodeLastRuneInString (s : list ascii) : Z * nat :=
  let end_ := Z.of_nat (length s) in
  match rev s with
  | [] => (RuneError, 0%nat)
  | c :: _ =>
      let r := byteOf c in
      if r <? RuneSelf then (r, 1%nat) else
      let lim := Z.max (end_ - UTFMax) 0 in
      let start := Z.max (scanRuneStart 4 s (end_ - 2) lim) 0 in
      let '(r, size) := DecodeRuneInString (skipn (Z.to_nat start) s) in
      if start + Z.of_nat size =? end_ then (r, size) else (RuneError, 1%nat)
  end.

(** The [White_Space] table of package unicode (all its ranges fit in 16
    bits) and its [LatinOffset]. *)
Definition White_Space : list (Z * Z * Z) :=
  [(9, 13, 1); (32, 133, 101); (160, 5760, 5600); (8192, 8202, 1); (8232, 8233, 1);
   (8239, 8287, 48); (12288, 12288, 1)].
Definition White_Space_LatinOffset : nat := 2.
Definition MaxLatin1 : Z := 255.

(** [unicode.is16] by linear search, as for tables this short. *)
Fixpoint is16 (ranges : list (Z * Z * Z)) (r : Z) : bool :=
  match ranges with
  | [] => false
  | (lo, hi, stride) :: rs =>
      if r <? lo then false
      else if r <=? hi then (stride =? 1) || ((r - lo) mod stride =? 0)
      else is16 rs r
  end.

(** [unicode.IsSpace(r)]. *)
Definition IsSpace (r : Z) : bool :=
  if (0 <=? r) && (r <=? MaxLatin1) then
    (r =? 9) || (r =? 10) || (r =? 11) || (r =? 12) || (r =? 13) || (r =? 32) ||
    (r =? 133) || (r =? 160)
  else if (0 <=? r) && (r <=? 12288) then is16 (skipn White_Space_LatinOffset White_Space) r
  else false.

(** [indexFunc(s, f, truth)]: the index of the first rune [r] (decoded as
    [for i, r := range s] does) with [f(r) == truth]. *)
Fixpoint indexFunc (fuel : nat) (s : list ascii) (f : Z -> bool) (truth : bool) : option nat :=
  match fuel with
  | O => None
  | S fuel' =>
      match s with
      | [] => None
      | _ :: _ =>
          let '(r, width) := DecodeRuneInString s in
          if Bool.eqb (f r) truth then Some 0%nat
          else option_map (fun i => (width + i)%nat) (indexFunc fuel' (skipn width s) f truth)
      end
  end.

(** [lastIndexFunc(s, f, truth)]: the index of the last rune [r] with
    [f(r) == truth], going back with [DecodeLastRuneInString(s[0:i])]. *)
Fixpoint lastIndexFunc (fuel : nat) (s : list ascii) (f : Z -> bool) (truth : bool) : option nat :=
  match fuel with
  | O => None
  | S fuel' =>
      match s with
      | [] => None
      | _ :: _ =>
          let '(r, size) := DecodeLastRuneInString s in
          let i := (length s - size)%nat in
          if Bool.eqb (f r) truth then Some i else lastIndexFunc fuel' (firstn i s) f truth
      end
  end.

(** [strings.TrimLeftFunc], [strings.TrimRightFunc], [strings.TrimFunc]. *)
Definition TrimLeftFunc (s : list ascii) (f : Z -> bool) : list ascii :=
  match indexFunc (length s) s f false with
  | None => []
  | Some i => skipn i s
  end.

Definition TrimRightFunc (s : list ascii) (f : Z -> bool) : list ascii :=
  match lastIndexFunc (length s) s f false with
  | None => []
  | Some i =>
      if RuneSelf <=? byteOf (nth i s "000"%char)
      then firstn (i + snd (DecodeRuneInString (skipn i s))) s
      else firstn (S i) s
  end.

Definition TrimFunc (s : list ascii) (f : Z -> bool) : list ascii :=
  TrimRightFunc (TrimLeftFunc s f) f.

(** The [asciiSpace] table: '\t', '\n', '\v', '\f', '\r' and ' '. *)
Definition isAsciiSpace (c : ascii) : bool :=
  let b := byteOf c in (b =? 32) || ((9 <=? b) && (b <=? 13)).

(** The forward loop of [strings.TrimSpace]: [inl rest] when it meets a
    byte of at least [RuneSelf] (the fallback [TrimFunc(s[start:],
    unicode.IsSpace)]), [inr rest] at the first ASCII non-space byte or
    at the end, [rest] being [s[start:]]. *)
Fixpoint trimSpaceStart (s : list ascii) : list ascii + list ascii :=
  match s with
  | [] => inr []
  | c :: s' =>
      if RuneSelf <=? byteOf c then inl s
      else if isAsciiSpace c then trimSpaceStart s' else inr s
  end.

(** The backward loop, on [s[start:stop]] reversed: [inl] when it meets
    a byte of at least [RuneSelf] (the fallback [TrimRightFunc(s[start:stop],
    unicode.IsSpace)]), [inr] at the last ASCII non-space byte. *)
Fixpoint trimSpaceStop (rs : list ascii) : list ascii + list ascii :=
  match rs with
  | [] => inr []
  | c :: rs' =>
      if RuneSelf <=? byteOf c then inl (rev rs)
      else if isAsciiSpace c then trimSpaceStop rs' else inr (rev rs)
  end.

(** [strings.TrimSpace(s)]: leading and trailing white space, as Unicode
    defines it, removed. *)
Definition TrimSpace (s : string) : string :=
  string_of_list_ascii
    (match trimSpaceStart (list_ascii_of_string s) with
     | inl rest => TrimFunc rest IsSpace
     | inr rest =>
         match trimSpaceStop (rev rest) with
         | inl mid => TrimRightFunc mid IsSpace
         | inr mid => mid
         end
     end).

End StringsTrimSpace.

(** The [--path] value after the [deprecated] lookup switch of
    [mainAliasSet]. *)
Definition deprecatedPath (deprecated : bool) (lookupFlag path : string) : string :=
  if deprecated then
    let lookup := ToLower (TrimSpace lookupFlag) in
    if String.eqb lookup "" || String.eqb lookup "auto" then "auto"
    else if String.eqb lookup "path" then "on"
    else if String.eqb lookup "dns" then "off"
    else path
  else path.

(** ** fetchAliasKeys *)

Definition CR : ascii := ascii_of_nat 13.

(** The size of a [bufio.NewReader] buffer. *)
Definition defaultBufSize : nat := 4096.

(** [b.ReadSlice('\n')] over the bytes [s] still unread, with room for
    [n] more bytes in the buffer: the slice (with its newline), the bytes
    left, and whether the buffer filled up before a newline
    ([ErrBufferFull]; the read error of a shorter input without a
    newline is reported as end of input instead). *)
Fixpoint readSlice (n : nat) (s : list ascii) : list ascii * list ascii * bool :=
  match n, s with
  | O, _ => ([], s, true)
  | S _, [] => ([], [], false)
  | S n', c :: s' =>
      if Ascii.eqb c newline then ([c], s', false)
      else let '(line, rest, full) := readSlice n' s' in (c :: line, rest, full)
  end.

(** [b.ReadLine()] with its [isPrefix] and error dropped, as
    [fetchAliasKeys] uses it: the line without its "\n" or "\r\n", and
    the bytes left.  On a full buffer a final '\r' is put back. *)
Definition readLine (s : list ascii) : list ascii * list ascii :=
  let '(line, rest, full) := readSlice defaultBufSize s in
  if full then
    match rev line with
    | c :: l' => if Ascii.eqb c CR then (rev l', c :: rest) else (line, rest)
    | [] => (line, rest)
    end
  else
    match rev line with
    | c :: l' =>
        if Ascii.eqb c newline then
          match l' with
          | d :: l'' => if Ascii.eqb d CR then (rev l'', rest) else (rev l', rest)
          | [] => ([], rest)
          end
        else (line, rest)
    | [] => ([], rest)
    end.

(** [args.Get(i)]: the empty string out of range. *)
Definition argGet (args : list string) (i : nat) : string := nth i args "".

(** The input of [fetchAliasKeys]: whether standard input is a terminal,
    its bytes, and the password [terminal.ReadPassword] reads. *)
Record keyInput := mkKeyInput {
  isTerminal : bool;
  stdinBytes : list ascii;
  typedPassword : string
}.

(** What [fetchAliasKeys] does besides returning the keys: text printed
    to standard output, a line read, the password read. *)
Inductive keyEvent :=
| PrintPrompt (text : string)
| ReadStdinLine
| ReadPassword.

(** [fetchAliasKeys(args)]: the access and secret keys and the effects. *)
Definition fetchAliasKeys (args : list string) (inp : keyInput)
  : string * string * list keyEvent :=
  let argsNr := length args in
  let '(accessKey, rest, ev1) :=
    if (argsNr =? 2)%nat then
      let '(value, rest) := readLine (stdinBytes inp) in
      (string_of_list_ascii value, rest,
       ((if isTerminal inp then [PrintPrompt "Enter Access Key: "] else []) ++ [ReadStdinLine])%list)
    else (argGet args 2, stdinBytes inp, []) in
  if (argsNr =? 2)%nat || (argsNr =? 3)%nat then
    if isTerminal inp then
      (accessKey, typedPassword inp, (ev1 ++ [PrintPrompt "Enter Secret Key: "; ReadPassword; PrintPrompt nl])%list)
    else
      let '(value, _) := readLine rest in
      (accessKey, string_of_list_ascii value, (ev1 ++ [ReadStdinLine])%list)
  else (accessKey, argGet args 3, ev1).

(** ** checkAliasSetSyntax *)

(** How [checkAliasSetSyntax] ends: the command help with exit code 1,
    a [fatalIf] exit with its message, or a return. *)
Inductive syntaxResult :=
| ShowHelpAndExit
| SyntaxFatal (msg : string)
| SyntaxOk.

Section AliasSyntax.

(** The validators of the package, defined in other files. *)
Variables (cleanAlias : string -> string)
  (isValidAlias isValidHostURL isValidAccessKey isValidSecretKey isValidAPI
   isValidLookup isValidPath : string -> bool).

(** [checkAliasSetSyntax(ctx, accessKey, secretKey, deprecated)] with the
    command arguments and the [--api], [--path] and [--lookup] flags. *)
Definition checkAliasSetSyntax (args : list string) (api path bucketLookup : string)
  (accessKey secretKey : string) (deprecated : bool) : syntaxResult :=
  let argsNr := length args in
  if (argsNr =? 0)%nat then ShowHelpAndExit else
  if (4 <? argsNr)%nat || (argsNr <? 2)%nat
  then SyntaxFatal "Incorrect number of arguments for alias set command." else
  let alias := cleanAlias (argGet args 0) in
  let url := argGet args 1 in
  if negb (isValidAlias alias) then SyntaxFatal "Invalid alias." else
  if negb (isValidHostURL url) then SyntaxFatal "Invalid URL." else
  if negb (isValidAccessKey accessKey)
  then SyntaxFatal ("Invalid access key `" ++ accessKey ++ "`.") else
  if negb (isValidSecretKey secretKey)
  then SyntaxFatal ("Invalid secret key `" ++ secretKey ++ "`.") else
  if negb (String.eqb api "") && negb (isValidAPI api)
  then SyntaxFatal "Unrecognized API signature. Valid options are `[S3v4, S3v2]`." else
  if deprecated then
    if negb (isValidLookup bucketLookup)
    then SyntaxFatal "Unrecognized bucket lookup. Valid options are `[dns,auto, path]`."
    else SyntaxOk
  else
    if negb (isValidPath path)
    then SyntaxFatal "Unrecognized path value. Valid options are `[auto, on, off]`."
    else SyntaxOk.

End AliasSyntax.

(** ** The acl commands (acl-set.go, acl-get.go) *)

(** How a command ends: its help with exit code 1, a [fatalIf] exit, or
    a return after printing its message. *)
Inductive cmdOutcome :=
| CmdHelp
| CmdFatal (err : perror)
| CmdDone.

Section AclCommands.

(** The ACL the server returns ([minio.AccessControlPolicyDecode]) and
    its [json.MarshalIndent(acl, "", " ")]. *)
Variable Acl : Type.
Variable MarshalIndent : Acl -> goerror + string.

(** The effects of the acl commands, in order. *)
Inductive aclEvent :=
| AclReadFile (name : string)
| AclNewClient (url : string)
| AclSetCall (url content : string)
| AclGetCall (url : string)
| AclCreateFile (name : string)
| AclWriteFile (name content : string)
| AclPrintSet (path : string)
| AclPrintGet (path : string) (acl : Acl).

(** The answers of the outside world: [ioutil.ReadFile], [newClient],
    [clnt.AclSet], [clnt.AclGet], [os.Create] and [f.Write]. *)
Record aclWorld := mkAclWorld {
  readFileR : string -> goerror + string;
  newClientR : string -> option perror;
  aclSetR : string -> string -> option perror;
  aclGetR : string -> perror + Acl;
  createR : string -> option goerror;
  writeR : string -> string -> option goerror
}.

(** [mainAclSet(cli)]. *)
Definition mainAclSet (args : list string) (w : aclWorld) : cmdOutcome * list aclEvent :=
  if negb (length args =? 2)%nat then (CmdHelp, []) else
  let targetURL := argGet args 0 in
  match readFileR w (argGet args 1) with
  | inl e => (CmdFatal (Trace (NewError e) args), [AclReadFile (argGet args 1)])
  | inr aclbytes =>
      let ev1 := [AclReadFile (argGet args 1); AclNewClient targetURL] in
      match newClientR w targetURL with
      | Some err => (CmdFatal err, ev1)
      | None =>
          let ev2 := (ev1 ++ [AclSetCall targetURL aclbytes])%list in
          match aclSetR w targetURL aclbytes with
          | Some err => (CmdFatal err, ev2)
          | None => (CmdDone, (ev2 ++ [AclPrintSet (argGet args 0)])%list)
          end
      end
  end.

(** [mainAclGet(cli)], [aclFile] being the [--acl-file] flag. *)
Definition mainAclGet (args : list string) (aclFile : string) (w : aclWorld)
  : cmdOutcome * list aclEvent :=
  if (length args =? 0)%nat then (CmdHelp, []) else
  let targetURL := argGet args 0 in
  match newClientR w targetURL with
  | Some err => (CmdFatal (Trace err [targetURL]), [AclNewClient targetURL])
  | None =>
      let ev1 := [AclNewClient targetURL; AclGetCall targetURL] in
      match aclGetR w targetURL with
      | inl err => (CmdFatal (Trace err [targetURL]), ev1)
      | inr acld =>
          let fileStep :=
            if String.eqb aclFile "" then inr [] else
            match createR w aclFile with
            | Some e => inl (Trace (NewError e) args, [AclCreateFile aclFile])
            | None =>
                match MarshalIndent acld with
                | inl e => inl (Trace (NewError e) args, [AclCreateFile aclFile])
                | inr acl =>
                    match writeR w aclFile acl with
                    | Some e => inl (Trace (NewError e) args,
                                     [AclCreateFile aclFile; AclWriteFile aclFile acl])
                    | None => inr [AclCreateFile aclFile; AclWriteFile aclFile acl]
                    end
                end
            end in
          match fileStep with
          | inl (err, ev2) => (CmdFatal err, (ev1 ++ ev2)%list)
          | inr ev2 => (CmdDone, (ev1 ++ ev2 ++ [AclPrintGet targetURL acld])%list)
          end
      end
  end.

End AclCommands.

(** ** admin user detail (admin-user-detail.go) *)

(** Decimal digits of [n], most significant first, with [fuel] steps. *)
Fixpoint decDigits (fuel : nat) (n : N) : list N :=
  match fuel with
  | O => []
  | S f => if (n <? 10)%N then [n] else (decDigits f (n / 10)%N ++ [(n mod 10)%N])%list
  end.

Definition digitChar (d : N) : ascii := ascii_of_N (48 + d)%N.

(** [strconv.FormatInt(i, 10)]. *)
Definition FormatInt (i : Z) : string :=
  let u := Z.to_N (Z.abs i) in
  let ds := string_of_list_ascii (map digitChar (decDigits (S (N.size_nat u)) u)) in
  if (i <? 0)%Z then "-" ++ ds else ds.

Module Madmin.
(** The fields of [madmin.UserDetail] the command reads; the ids are
    the [int64] values the code converts them to. *)
Record UserDetail := mkUserDetail {
  Status : string;
  CanonicalID : string;
  Pgid : Z;
  Uid : Z;
  Sgids : list Z
}.
End Madmin.

(** [userMessage] as [mainAdminUserDetail] fills it. *)
Record userMessage := mkUserMessage {
  um_op : string;
  um_AccessKey : string;
  um_UserStatus : string;
  um_CanonicalID : string;
  um_Pgid : string;
  um_Uid : string;
  um_Sgids : list string
}.

(** [mainAdminUserDetail(ctx)]: [newAdminClient] fails or not, and
    [GetUserDetail] of the user name answers; the message printed. *)
Definition mainAdminUserDetail (args : list string) (newAdminClientR : string -> option perror)
  (getUserDetailR : string -> goerror + Madmin.UserDetail) : cmdOutcome * option userMessage :=
  if negb (length args =? 2)%nat then (CmdHelp, None) else
  let aliasedURL := argGet args 0 in
  match newAdminClientR aliasedURL with
  | Some err => (CmdFatal err, None)
  | None =>
      match getUserDetailR (argGet args 1) with
      | inl e => (CmdFatal (Trace (NewError e) args), None)
      | inr user =>
          let sgidStrs := map FormatInt (Madmin.Sgids user) in
          (CmdDone, Some (mkUserMessage "detail" (argGet args 1) (Madmin.Status user)
                            (Madmin.CanonicalID user) (FormatInt (Madmin.Pgid user))
                            (FormatInt (Madmin.Uid user)) sgidStrs))
      end
  end.

(** ** Notions used by the statements *)

(** The world of the trust prompt with another standard input. *)
Definition setStdin (w : tofuWorld) (input : string) : tofuWorld :=
  mkTofuWorld (newRequest w) (doRootCAs w) (fetchDo w) input (writeErr w).

(** The world of the trust prompt with another result for [os.WriteFile]. *)
Definition setWriteErr (w : tofuWorld) (e : option goerror) : tofuWorld :=
  mkTofuWorld (newRequest w) (doRootCAs w) (fetchDo w) (stdin w) e.

(** The trust prompt gets as far as fetching the peer certificate: the
    endpoint is not plain http, the request over the process-wide roots
    failed with an unknown-authority error [tlsErr], and the insecure
    request returned [peerCert]. *)
Definition reachesFetch (w : tofuWorld) (tlsErr : goerror) (peerCert : Certificate) : Prop :=
  (exists scheme, newRequest w = inr scheme /\ scheme <> "http") /\
  doRootCAs w = Some tlsErr /\
  Contains (Error tlsErr) unknownAuthority = true /\
  fst (fetchPeerCertificate w) = inr peerCert.

(** An affirmative answer line, as the code tests it. *)
Definition affirmative (answer : string) : bool :=
  String.eqb (ToLower answer) ("y" ++ nl) || String.eqb (ToLower answer) ("yes" ++ nl).

Definition isWrite (ev : event) : bool :=
  match ev with EvWriteFile _ _ => true | _ => false end.

Definition isPromptOrRead (ev : event) : bool :=
  match ev with EvPrompt _ _ | EvReadStdin => true | _ => false end.

(** The effects of the trust prompt up to pinning [c] for [alias]. *)
Definition trustEffects (alias : string) (c : Certificate) : list event :=
  [EvGet true; EvGet false; EvPrompt alias (RawSubjectPublicKeyInfo c); EvReadStdin;
   EvWriteFile (alias ++ ".crt") (Raw c)].

(** The trust step of [mainAliasSet]: the prompt runs unless
    [--insecure], [--json] or a standard output that is no terminal. *)
Definition trustStep (a : aliasSetArgs) (w : aliasSetWorld) : option Certificate * option perror :=
  if negb (globalInsecure w) && negb (globalJSON w) && stdoutIsTerminal w
  then fst (promptTrustSelfSignedCert (tofu w) (a_alias a))
  else (None, None).

(** The world of [mainAliasSet] with another world for the trust prompt. *)
Definition setTofu (w : aliasSetWorld) (t : tofuWorld) : aliasSetWorld :=
  mkAliasSetWorld (ldapEnabled w) (globalInsecure w) (globalJSON w) (stdoutIsTerminal w) t
    (now w) (probeW w) (loadMcConfig w) (saveMcConfig w).

(** [c] is in [pool] (by its [Raw] bytes, as [AddCert] checks). *)
Definition inPool (c : Certificate) (pool : CertPool) : bool :=
  existsb (fun d => bytesEqual (Raw d) (Raw c)) pool.

(** The transport already has a TLS config with a root pool. *)
Definition hasRootPool (tr : option transport) : bool :=
  match tr with
  | Some t => match TLSClientConfig t with Some c => notNil (RootCAs c) | None => false end
  | None => false
  end.

(** A line of standard input as [fetchAliasKeys] reads it: no newline
    inside, no final '\r', and short enough for the reader's buffer. *)
Definition plainLine (l : list ascii) : Prop :=
  ~ In newline l /\ (forall l0, l <> (l0 ++ [CR])%list) /\ (length l + 2 <= defaultBufSize)%nat.

(** How such a line ends: "\n" or "\r\n" followed by the rest of the
    input, or the end of the input. *)
Definition lineEnd (t rest : list ascii) : Prop :=
  t = [newline] \/ t = [CR; newline] \/ (t = [] /\ rest = []).

(** The number a list of decimal digits denotes, most significant first. *)
Definition fromDigits (ds : list N) : N := fold_left (fun acc d => (10 * acc + d)%N) ds 0%N.

(** ** Small runs *)

(** A world in which every step of the acl commands succeeds, and one
    in which the ACL file is missing. *)
Definition demoAclWorld : aclWorld unit :=
  mkAclWorld unit (fun _ => inr "grants: []") (fun _ => None) (fun _ _ => None)
    (fun _ => inr tt) (fun _ => None) (fun _ _ => None).

Definition missingFileWorld : aclWorld unit :=
  mkAclWorld unit (fun _ => inl (ErrMsg "open acl.json: no such file or directory"))
    (fun _ => None) (fun _ _ => None) (fun _ => inr tt) (fun _ => None) (fun _ _ => None).

Definition demoMarshal (_ : unit) : goerror + string := inr "{}".



Definition selfSigned : Certificate := mkCertificate [1; 2] [3; 4] [7] [7].
Definition otherIssued : Certificate := mkCertificate [5; 6] [3; 4] [7] [8].

Definition httpsWorld (c : Certificate) (input : string) (we : option goerror) : tofuWorld :=
  mkTofuWorld (inr "https")
    (Some (ErrMsg "Get https://h: x509: certificate signed by unknown authority"))
    (inr [c]) input we.

Example prompt_accepts_yes :
  fst (promptTrustSelfSignedCert (httpsWorld selfSigned ("YES" ++ nl) None) "a")
  = (Some selfSigned, None).
Proof. reflexivity. Qed.

Example prompt_other_issuer :
  snd (promptTrustSelfSignedCert (httpsWorld otherIssued ("y" ++ nl) None) "a")
  = [EvGet true; EvGet false].
Proof. reflexivity. Qed.

(** ** Proof automation for the straight-line code *)

Lemma eqb_false_neq (s t : string) : s <> t -> String.eqb s t = false.
Proof. apply String.eqb_neq. Qed.

Lemma bytesEqual_false (a b : list Z) : a <> b -> bytesEqual a b = false.
Proof. intros H. unfold bytesEqual. by apply bool_decide_eq_false_2. Qed.

Lemma bytesEqual_true (a b : list Z) : a = b -> bytesEqual a b = true.
Proof. intros H. unfold bytesEqual. by apply bool_decide_eq_true_2. Qed.

(** Unfold the trust prompt down to the peer certificate. *)
Lemma promptTrust_fetched (w : tofuWorld) (alias : string) (tlsErr : goerror)
  (peerCert : Certificate) :
  reachesFetch w tlsErr peerCert ->
  promptTrustSelfSignedCert w alias =
    let ev1 := EvGet true :: snd (fetchPeerCertificate w) in
    if negb (bytesEqual (SubjectKeyId peerCert) (AuthorityKeyId peerCert))
    then ((None, Some (NewError tlsErr)), ev1) else
    let ev2 := (ev1 ++ [EvPrompt alias (RawSubjectPublicKeyInfo peerCert); EvReadStdin])%list in
    let '(answer, readErr) := ReadString (stdin w) in
    match readErr with
    | Some e => ((None, Some (NewError e)), ev2)
    | None =>
        if negb (affirmative answer)
        then ((None, Some (NewError tlsErr)), ev2) else
        let ev3 := (ev2 ++ [EvWriteFile (alias ++ ".crt") (Raw peerCert)])%list in
        match writeErr w with
        | Some e => ((None, Some (NewError e)), ev3)
        | None => ((Some peerCert, None), ev3)
        end
    end.
Proof.
  intros [[scheme [Hreq Hs]] [Hdo [Hc Hf]]].
  unfold promptTrustSelfSignedCert. rewrite Hreq, (eqb_false_neq _ _ Hs), Hdo, Hc.
  simpl. destruct (fetchPeerCertificate w) as [fetched evFetch] eqn:E.
  simpl in Hf. subst fetched. simpl.
  destruct (negb _); [reflexivity|].
  destruct (ReadString (stdin w)) as [answer [e|]]; [reflexivity|].
  unfold affirmative. destruct (String.eqb (ToLower answer) _), (String.eqb (ToLower answer) _);
    reflexivity.
Qed.

Lemma fetchPeerCertificate_setStdin (w : tofuWorld) (input : string) :
  fetchPeerCertificate (setStdin w input) = fetchPeerCertificate w.
Proof. reflexivity. Qed.

Lemma reachesFetch_setStdin (w : tofuWorld) (tlsErr : goerror) (peerCert : Certificate)
  (input : string) :
  reachesFetch w tlsErr peerCert -> reachesFetch (setStdin w input) tlsErr peerCert.
Proof. intros H. exact H. Qed.

Lemma fetchPeerCertificate_only_gets (w : tofuWorld) :
  forallb (fun ev => negb (isPromptOrRead ev) && negb (isWrite ev))
    (snd (fetchPeerCertificate w)) = true.
Proof.
  unfold fetchPeerCertificate.
  destruct (newRequest w); [reflexivity|].
  destruct (fetchDo w) as [e|[|c cs]]; reflexivity.
Qed.

Lemma forallb_and_l {A} (f g : A -> bool) (l : list A) :
  forallb (fun x => f x && g x) l = true -> forallb f l = true.
Proof.
  induction l as [|x l IH]; simpl; [done|].
  intros H. apply andb_prop in H as [H1 H2]. apply andb_prop in H1 as [H1 _].
  rewrite H1. simpl. by apply IH.
Qed.

Lemma forallb_and_r {A} (f g : A -> bool) (l : list A) :
  forallb (fun x => f x && g x) l = true -> forallb g l = true.
Proof.
  induction l as [|x l IH]; simpl; [done|].
  intros H. apply andb_prop in H as [H1 H2]. apply andb_prop in H1 as [_ H1].
  rewrite H1. simpl. by apply IH.
Qed.

(** ** Trust negotiation *)

(** C3: when the fetched peer certificate's subject-key id differs from
    its authority-key id, the trust prompt fails with the original
    unknown-authority error whatever standard input holds, and neither
    shows the fingerprint prompt nor reads an answer. *)
Theorem untrusted_issuer_rejected_without_prompt (w : tofuWorld) (alias : string)
  (tlsErr : goerror) (peerCert : Certificate) :
  reachesFetch w tlsErr peerCert ->
  SubjectKeyId peerCert <> AuthorityKeyId peerCert ->
  forall input : string,
    fst (promptTrustSelfSignedCert (setStdin w input) alias) = (None, Some (NewError tlsErr)) /\
    forallb (fun ev => negb (isPromptOrRead ev))
      (snd (promptTrustSelfSignedCert (setStdin w input) alias)) = true.
Proof.
  intros Hr Hne input.
  rewrite (promptTrust_fetched _ alias _ _ (reachesFetch_setStdin _ _ _ input Hr)).
  rewrite (bytesEqual_false _ _ Hne). simpl. split; [reflexivity|].
  rewrite fetchPeerCertificate_setStdin.
  exact (forallb_and_l _ _ _ (fetchPeerCertificate_only_gets w)).
Qed.

Definition unknownAuthorityErr : goerror :=
  ErrMsg "Get https://h: x509: certificate signed by unknown authority".

Lemma untrusted_issuer_rejected_without_prompt_witness :
  reachesFetch (httpsWorld otherIssued ("y" ++ nl) None) unknownAuthorityErr otherIssued /\
  SubjectKeyId otherIssued <> AuthorityKeyId otherIssued /\
  fst (promptTrustSelfSignedCert (setStdin (httpsWorld otherIssued ("y" ++ nl) None) ("yes" ++ nl)) "a")
    = (None, Some (NewError unknownAuthorityErr)).
Proof.
  assert (Hr : reachesFetch (httpsWorld otherIssued ("y" ++ nl) None) unknownAuthorityErr otherIssued).
  { split; [exists "https"; split; [reflexivity|discriminate]|].
    split; [reflexivity|]. split; reflexivity. }
  assert (Hne : SubjectKeyId otherIssued <> AuthorityKeyId otherIssued) by discriminate.
  split; [exact Hr|]. split; [exact Hne|].
  exact (proj1 (untrusted_issuer_rejected_without_prompt _ "a" _ _ Hr Hne ("yes" ++ nl))).
Defined.

(** C9: when the request over the process-wide roots fails with an error
    whose text does not contain "certificate signed by unknown
    authority", the trust prompt returns that error and no certificate,
    after that single request. *)
Theorem other_tls_failure_propagated (w : tofuWorld) (alias scheme : string) (e : goerror) :
  newRequest w = inr scheme -> scheme <> "http" ->
  doRootCAs w = Some e ->
  Contains (Error e) unknownAuthority = false ->
  promptTrustSelfSignedCert w alias = ((None, Some (NewError e)), [EvGet true]).
Proof.
  intros Hreq Hs Hdo Hc.
  unfold promptTrustSelfSignedCert. rewrite Hreq, (eqb_false_neq _ _ Hs), Hdo, Hc.
  reflexivity.
Qed.

Definition refusedWorld : tofuWorld :=
  mkTofuWorld (inr "https") (Some (ErrMsg "dial tcp 127.0.0.1:9000: connect: connection refused"))
    (inl (ErrMsg "connection refused")) ("y" ++ nl) None.

Lemma other_tls_failure_propagated_witness :
  promptTrustSelfSignedCert refusedWorld "a"
  = ((None, Some (NewError (ErrMsg "dial tcp 127.0.0.1:9000: connect: connection refused"))),
     [EvGet true]).
Proof.
  apply (other_tls_failure_propagated refusedWorld "a" "https"); [reflexivity|discriminate|reflexivity|].
  vm_compute. reflexivity.
Defined.

(** C8, as stated, fails in two ways: with the answer "yes" and a
    certificate file that cannot be written, no pinned certificate is
    returned although the confirmation is affirmative; and the answer
    "y" that input ends without a newline after (e.g. [printf y]) is
    rejected with the read error [EOF], so no certificate is pinned.
    Nor is a declined answer a rejection of its own: it returns the very
    error an untrusted issuer gets at the same endpoint. *)
Lemma affirmative_answer_without_pinned_cert :
  ~ (forall (w : tofuWorld) (alias : string) (tlsErr : goerror) (peerCert : Certificate),
       reachesFetch w tlsErr peerCert ->
       SubjectKeyId peerCert = AuthorityKeyId peerCert ->
       (fst (fst (promptTrustSelfSignedCert w alias)) = Some peerCert <->
        affirmative (fst (ReadString (stdin w))) = true)) /\
  ~ (forall (w : tofuWorld) (alias : string) (tlsErr : goerror) (peerCert : Certificate),
       reachesFetch w tlsErr peerCert ->
       SubjectKeyId peerCert = AuthorityKeyId peerCert ->
       (ToLower (stdin w) = "y" \/ ToLower (stdin w) = "yes") ->
       writeErr w = None ->
       fst (fst (promptTrustSelfSignedCert w alias)) = Some peerCert) /\
  ~ (forall (w1 w2 : tofuWorld) (alias : string) (tlsErr : goerror) (c1 c2 : Certificate),
       reachesFetch w1 tlsErr c1 -> SubjectKeyId c1 = AuthorityKeyId c1 ->
       ReadString (stdin w1) = (fst (ReadString (stdin w1)), None) ->
       affirmative (fst (ReadString (stdin w1))) = false ->
       reachesFetch w2 tlsErr c2 -> SubjectKeyId c2 <> AuthorityKeyId c2 ->
       snd (fst (promptTrustSelfSignedCert w1 alias)) <>
       snd (fst (promptTrustSelfSignedCert w2 alias))).
Proof.
  split; [|split].
  - intros Hclaim.
    set (w := httpsWorld selfSigned ("yes" ++ nl) (Some (ErrMsg "open a.crt: permission denied"))).
    assert (Hr : reachesFetch w unknownAuthorityErr selfSigned).
    { split; [exists "https"; split; [reflexivity|discriminate]|].
      split; [reflexivity|]. split; reflexivity. }
    destruct (Hclaim w "a" _ _ Hr eq_refl) as [_ Hif].
    specialize (Hif eq_refl). vm_compute in Hif. discriminate.
  - intros Hclaim.
    set (w := httpsWorld selfSigned "y" None).
    assert (Hr : reachesFetch w unknownAuthorityErr selfSigned).
    { split; [exists "https"; split; [reflexivity|discriminate]|].
      split; [reflexivity|]. split; reflexivity. }
    pose proof (Hclaim w "a" _ _ Hr eq_refl (or_introl eq_refl) eq_refl) as H.
    vm_compute in H. discriminate.
  - intros Hclaim.
    set (w1 := httpsWorld selfSigned ("No" ++ nl) None).
    set (w2 := httpsWorld otherIssued ("y" ++ nl) None).
    assert (Hr1 : reachesFetch w1 unknownAuthorityErr selfSigned).
    { split; [exists "https"; split; [reflexivity|discriminate]|].
      split; [reflexivity|]. split; reflexivity. }
    assert (Hr2 : reachesFetch w2 unknownAuthorityErr otherIssued).
    { split; [exists "https"; split; [reflexivity|discriminate]|].
      split; [reflexivity|]. split; reflexivity. }
    apply (Hclaim w1 w2 "a" _ _ _ Hr1 eq_refl eq_refl eq_refl Hr2 ltac:(discriminate)).
    vm_compute. reflexivity.
Qed.

(** C8 (amended): for a self-signed peer certificate, an answer line
    (read up to its newline) other than "y" or "yes" in any case is
    rejected with the same unknown-authority error as an untrusted
    issuer and nothing is written; an answer without a newline is
    rejected with the read error and nothing is written; a pinned
    certificate is returned exactly when the line is "y" or "yes" and
    writing [<alias>.crt] succeeded, and it is then the peer certificate
    whose [Raw] bytes were written. *)
Theorem self_signed_pinned_iff_confirmed (w : tofuWorld) (alias : string)
  (tlsErr : goerror) (peerCert : Certificate) :
  reachesFetch w tlsErr peerCert ->
  SubjectKeyId peerCert = AuthorityKeyId peerCert ->
  (forall answer, ReadString (stdin w) = (answer, None) -> affirmative answer = false ->
     fst (promptTrustSelfSignedCert w alias) = (None, Some (NewError tlsErr)) /\
     forallb (fun ev => negb (isWrite ev)) (snd (promptTrustSelfSignedCert w alias)) = true) /\
  (forall answer e, ReadString (stdin w) = (answer, Some e) ->
     fst (promptTrustSelfSignedCert w alias) = (None, Some (NewError e)) /\
     forallb (fun ev => negb (isWrite ev)) (snd (promptTrustSelfSignedCert w alias)) = true) /\
  (forall c, fst (fst (promptTrustSelfSignedCert w alias)) = Some c <->
     c = peerCert /\ affirmative (fst (ReadString (stdin w))) = true /\
     snd (ReadString (stdin w)) = None /\ writeErr w = None) /\
  (fst (fst (promptTrustSelfSignedCert w alias)) <> None ->
     In (EvWriteFile (alias ++ ".crt") (Raw peerCert)) (snd (promptTrustSelfSignedCert w alias))).
Proof.
  intros Hr Heq.
  pose proof (forallb_and_r _ _ _ (fetchPeerCertificate_only_gets w)) as Hget.
  rewrite (promptTrust_fetched _ alias _ _ Hr), (bytesEqual_true _ _ Heq). simpl.
  destruct (ReadString (stdin w)) as [answer [e|]] eqn:Hread.
  - split; [intros ? Habs; congruence|].
    split.
    + intros a e' Habs. injection Habs as <- <-.
      split; [reflexivity|]. simpl. rewrite forallb_app, Hget. reflexivity.
    + split.
      * intros c. simpl. split; [congruence|]. intros (_ & _ & Habs & _). congruence.
      * simpl. intros H. exfalso. by apply H.
  - split.
    { intros a Ha Haff. injection Ha as <-. rewrite Haff. simpl.
      split; [reflexivity|]. simpl. rewrite forallb_app, Hget. reflexivity. }
    split; [intros ? ? Habs; discriminate|]. simpl.
    destruct (affirmative answer) eqn:Haff; simpl.
    + destruct (writeErr w) as [e|] eqn:Hw; simpl.
      * split; [intros c; split; [discriminate|intros (_ & _ & _ & Habs); discriminate]|].
        intros H. exfalso. by apply H.
      * split; [intros c; split; [intros Hc; injection Hc as <-; done|intros (-> & _); done]|].
        intros _. right. apply in_or_app. right. left. reflexivity.
    + split; [intros c; split; [discriminate|intros (_ & Habs & _); discriminate]|].
      intros H. exfalso. by apply H.
Qed.

Lemma self_signed_pinned_iff_confirmed_witness :
  reachesFetch (httpsWorld selfSigned ("No" ++ nl) None) unknownAuthorityErr selfSigned /\
  SubjectKeyId selfSigned = AuthorityKeyId selfSigned /\
  fst (promptTrustSelfSignedCert (httpsWorld selfSigned ("No" ++ nl) None) "a")
    = (None, Some (NewError unknownAuthorityErr)).
Proof.
  assert (Hr : reachesFetch (httpsWorld selfSigned ("No" ++ nl) None) unknownAuthorityErr selfSigned).
  { split; [exists "https"; split; [reflexivity|discriminate]|].
    split; [reflexivity|]. split; reflexivity. }
  split; [exact Hr|]. split; [reflexivity|].
  exact (proj1 (proj1 (self_signed_pinned_iff_confirmed _ "a" _ _ Hr eq_refl) ("No" ++ nl)
    eq_refl eq_refl)).
Defined.

(** ** The STS client *)

Lemma AddCert_idem (p : CertPool) (c : Certificate) :
  AddCert (AddCert p c) c = AddCert p c.
Proof.
  unfold AddCert at 2.
  destruct (existsb (fun d => bytesEqual (Raw d) (Raw c)) p) eqn:E.
  - unfold AddCert. rewrite E. reflexivity.
  - unfold AddCert. rewrite existsb_app. simpl.
    rewrite (bytesEqual_true _ _ eq_refl). rewrite orb_true_r, E. reflexivity.
Qed.

(** C1, as stated, fails: for an https endpoint with a pinned
    certificate the STS client skips certificate verification. *)
Lemma https_pinned_sts_client_skips_verification :
  ~ (forall (g : option CertPool) (pc : option Certificate) (schem : string)
       (g' : option CertPool) (cfg : tlsConfig),
       prepareStsClient g pc schem = Some (g', cfg) ->
       (InsecureSkipVerify cfg = true <-> schem = "http")).
Proof.
  intros Hclaim.
  destruct (Hclaim (Some []) (Some selfSigned) "https" (Some [selfSigned])
              (mkTlsConfig (Some [selfSigned]) true VersionTLS12) eq_refl) as [H _].
  specialize (H eq_refl). discriminate.
Qed.

(** C1 (amended): the STS client skips certificate verification exactly
    when the URL scheme is not "http" and a pinned certificate is
    present; it trusts the process-wide root pool with the pinned
    certificate added, and that pool is the process-wide one (updated
    in place); TLS 1.2 is the minimum version.  With a non-nil
    process-wide pool the client is always built. *)
Theorem sts_client_verification_and_roots (g : option CertPool) (pc : option Certificate)
  (schem : string) (g' : option CertPool) (cfg : tlsConfig) :
  prepareStsClient g pc schem = Some (g', cfg) ->
  InsecureSkipVerify cfg = negb (String.eqb schem "http") && notNil pc /\
  RootCAs cfg = g' /\
  g' = match g, pc with
       | Some p, Some c => Some (AddCert p c)
       | _, _ => g
       end /\
  MinVersion cfg = VersionTLS12.
Proof.
  unfold prepareStsClient.
  destruct g as [p|], pc as [c|]; simpl; try discriminate;
    intros H; injection H as <- <-; simpl; try rewrite AddCert_idem; repeat split.
Qed.

Lemma sts_client_built (p : CertPool) (pc : option Certificate) (schem : string) :
  exists g' cfg, prepareStsClient (Some p) pc schem = Some (g', cfg).
Proof. destruct pc; eexists _, _; reflexivity. Qed.

Lemma sts_client_verification_and_roots_witness :
  prepareStsClient (Some []) (Some selfSigned) "https"
    = Some (Some [selfSigned], mkTlsConfig (Some [selfSigned]) true VersionTLS12) /\
  InsecureSkipVerify (mkTlsConfig (Some [selfSigned]) true VersionTLS12) = true.
Proof.
  split; [reflexivity|].
  exact (proj1 (sts_client_verification_and_roots (Some []) (Some selfSigned) "https" _ _ eq_refl)).
Defined.

(** ** Signature probing *)

Definition isBucketDoesNotExist (e : goerror) : bool :=
  match e with BucketDoesNotExist _ => true | _ => false end.

(** A probe attempt that ends in an error. *)
Definition attemptFails (w : probeWorld) (stype : string) : Prop :=
  exists err, snd (fst (probeSignatureType w stype)) = Some err.

(** C5: under a dialect whose client is built, a stat error that is
    [BucketDoesNotExist] or has the S3 code "AccessDenied" makes the
    attempt return that dialect with no error; any other stat error, and
    a failure to build the client, makes it return an error.  An error
    of the V4 attempt is what sends the probe on to V2: the probe then
    ends as the V2 attempt does. *)
Theorem probe_attempt_classification (w : probeWorld) (stype : string) :
  (forall err, S3New w stype = None -> Stat w stype = Some err ->
     isBucketDoesNotExist (ToGoError err) = true \/
     ToErrorResponseCode (ToGoError err) = "AccessDenied" ->
     probeSignatureType w stype = ((stype, None), [stype])) /\
  (forall err, S3New w stype = None -> Stat w stype = Some err ->
     isBucketDoesNotExist (ToGoError err) = false ->
     ToErrorResponseCode (ToGoError err) <> "AccessDenied" ->
     probeSignatureType w stype = (("", Some (Trace err [stype])), [stype])) /\
  (forall err, S3New w stype = Some err ->
     probeSignatureType w stype = (("", Some err), [])) /\
  (attemptFails w "s3v4" ->
     fst (probeS3Signature w) =
       match fst (probeSignatureType w "s3v2") with
       | (s, None) => (s, None)
       | (_, Some e2) => ("", Some (Trace e2 ["s3v4"; "s3v2"]))
       end).
Proof.
  split; [|split; [|split]].
  - intros err Hn Hs Hc. unfold probeSignatureType. rewrite Hn, Hs.
    destruct (ToGoError err) eqn:E; simpl in Hc |- *; try reflexivity.
    + destruct Hc as [Hc|Hc]; discriminate.
    + destruct Hc as [Hc|Hc]; [discriminate|]. subst code. reflexivity.
  - intros err Hn Hs Hb Hc. unfold probeSignatureType. rewrite Hn, Hs.
    destruct (ToGoError err) eqn:E; simpl in Hb, Hc |- *; try discriminate;
      try rewrite (eqb_false_neq _ _ Hc); reflexivity.
  - intros err Hn. unfold probeSignatureType. rewrite Hn. reflexivity.
  - intros [err4 H4]. unfold probeS3Signature.
    destruct (probeSignatureType w "s3v4") as [[s4 e4] ev4]. simpl in H4. subst e4.
    destruct (probeSignatureType w "s3v2") as [[s2 [e2|]] ev2]; reflexivity.
Qed.

Definition deniedWorld : probeWorld :=
  mkProbeWorld (fun _ => None)
    (fun _ => Some (NewError (ErrorResponse "AccessDenied" "Access Denied."))).

Lemma probe_attempt_classification_witness :
  probeSignatureType deniedWorld "s3v4" = (("s3v4", None), ["s3v4"]).
Proof.
  apply (proj1 (probe_attempt_classification deniedWorld "s3v4")
           (NewError (ErrorResponse "AccessDenied" "Access Denied.")));
    [reflexivity|reflexivity|right; reflexivity].
Defined.

(** A probe error carries a cause when that is its cause or the text of
    that cause is among its trace arguments. *)
Definition carriesCause (err : perror) (e : goerror) : Prop :=
  cause err = e \/ In (Error e) (concat (frames err)).

Definition mismatchWorld : probeWorld :=
  mkProbeWorld (fun _ => None)
    (fun stype => Some (NewError (ErrorResponse "SignatureDoesNotMatch"
                                   ("The request signature does not match under " ++ stype)))).

(** C4, as stated, fails: when both dialects fail the probe's error
    carries only the V2 cause, the V4 cause is dropped. *)
Lemma exhausted_probe_drops_v4_cause :
  ~ (forall (w : probeWorld) (err4 err2 err : perror),
       snd (fst (probeSignatureType w "s3v4")) = Some err4 ->
       snd (fst (probeSignatureType w "s3v2")) = Some err2 ->
       snd (fst (probeS3Signature w)) = Some err ->
       carriesCause err (cause err4) /\ carriesCause err (cause err2)).
Proof.
  intros Hclaim.
  destruct (Hclaim mismatchWorld _ _ _ eq_refl eq_refl eq_refl) as [H4 _].
  vm_compute in H4. destruct H4 as [H4|H4]; [discriminate|].
  repeat (destruct H4 as [H4|H4]; [discriminate|]). exact H4.
Qed.

Lemma probeSignatureType_ok_dialect (w : probeWorld) (stype : string) :
  snd (fst (probeSignatureType w stype)) = None ->
  fst (fst (probeSignatureType w stype)) = stype /\ snd (probeSignatureType w stype) = [stype].
Proof.
  unfold probeSignatureType.
  destruct (S3New w stype); [discriminate|].
  destruct (Stat w stype) as [err|]; [|done].
  destruct (ToGoError err); simpl; try done;
    destruct (String.eqb _ "AccessDenied"); done.
Qed.

(** C4 (amended): the probe tries V4 first and, when V4 succeeds, returns
    V4 without a V2 attempt; it tries V2 only after V4 failed; when both
    fail it fails with the V2 attempt's error, traced with "s3v4" and
    "s3v2" (the V4 error is not kept). *)
Theorem probe_v4_then_v2 (w : probeWorld) :
  (snd (fst (probeSignatureType w "s3v4")) = None ->
     fst (probeS3Signature w) = ("s3v4", None) /\ snd (probeS3Signature w) = ["s3v4"]) /\
  (forall err4, snd (fst (probeSignatureType w "s3v4")) = Some err4 ->
     snd (probeS3Signature w) =
       (snd (probeSignatureType w "s3v4") ++ snd (probeSignatureType w "s3v2"))%list /\
     (snd (fst (probeSignatureType w "s3v2")) = None ->
        fst (probeS3Signature w) = ("s3v2", None)) /\
     (forall err2, snd (fst (probeSignatureType w "s3v2")) = Some err2 ->
        fst (probeS3Signature w) = ("", Some (Trace err2 ["s3v4"; "s3v2"])))).
Proof.
  pose proof (probeSignatureType_ok_dialect w "s3v4") as Ok4.
  pose proof (probeSignatureType_ok_dialect w "s3v2") as Ok2.
  unfold probeS3Signature.
  destruct (probeSignatureType w "s3v4") as [[s4 e4] ev4]; simpl in *.
  destruct (probeSignatureType w "s3v2") as [[s2 e2] ev2]; simpl in *.
  split.
  - intros ->. destruct (Ok4 eq_refl) as [-> ->]. done.
  - intros err4 ->. split; [destruct e2; done|]. split.
    + intros ->. destruct (Ok2 eq_refl) as [-> _]. done.
    + intros err2 ->. done.
Qed.

(** ** Building the S3 configuration *)

Section BuildS3ConfigProps.

Variable NewS3Config : string -> aliasConfigV10 -> S3.Config.

(** C6 (first half): with an explicit, non-empty [--api], [BuildS3Config]
    tries no dialect, its result does not depend on how the server
    would answer a probe, and the config's signature is the given value. *)
Lemma BuildS3Config_explicit_api (pw : probeWorld)
  (url alias accessKey secretKey sessionToken api path : string)
  (peerCert : option Certificate) :
  api <> "" ->
  snd (BuildS3Config NewS3Config pw url alias accessKey secretKey sessionToken api path peerCert) = [] /\
  (forall pw' : probeWorld,
     BuildS3Config NewS3Config pw' url alias accessKey secretKey sessionToken api path peerCert =
     BuildS3Config NewS3Config pw url alias accessKey secretKey sessionToken api path peerCert) /\
  exists cfg,
    fst (BuildS3Config NewS3Config pw url alias accessKey secretKey sessionToken api path peerCert)
      = (Some cfg, None) /\ S3.Signature cfg = api.
Proof.
  intros Hapi. unfold BuildS3Config. rewrite (eqb_false_neq _ _ Hapi). simpl.
  split; [done|]. split; [done|]. eexists; split; reflexivity.
Qed.

End BuildS3ConfigProps.

(** ** The alias record written by [mainAliasSet] *)

Lemma setAlias_stored (loaded : perror + gmap string aliasConfigV10) (saveErr : option perror)
  (alias : string) (cfg : aliasConfigV10) (aliases : gmap string aliasConfigV10) :
  setAlias loaded saveErr alias cfg = inr aliases -> aliases !! alias = Some cfg.
Proof.
  unfold setAlias. destruct loaded as [err|al]; [discriminate|].
  destruct saveErr; [discriminate|]. intros H. injection H as <-.
  apply lookup_insert_eq.
Qed.

Section MainAliasSetProps.

Variable NewS3Config : string -> aliasConfigV10 -> S3.Config.
Variable getStsWithLDAP :
  string -> string -> string -> option Certificate -> goerror + (string * string * string).

(** What a run of [mainAliasSet] that stores the alias has done: the
    record stored under the alias, the STS values of its credential
    type, and the [BuildS3Config] call it made. *)
Lemma mainAliasSet_stored (a : aliasSetArgs) (w : aliasSetWorld)
  (aliases : gmap string aliasConfigV10) (ev : list string) :
  mainAliasSet NewS3Config getStsWithLDAP a w = (Stored aliases, ev) ->
  exists peerCert stsAK stsSK stsTk exp s3Config,
    BuildS3Config NewS3Config (probeW w) (a_url a) (a_alias a) stsAK stsSK stsTk
      (a_api a) (a_path a) peerCert = ((Some s3Config, None), ev) /\
    aliases !! a_alias a =
      Some (mkAliasConfigV10 (S3.HostURL s3Config) (a_accessKey a) (a_secretKey a) ""
              (S3.Signature s3Config) (a_path a) (resolveType (a_type a) (ldapEnabled w))
              stsAK stsSK stsTk exp) /\
    (if String.eqb (resolveType (a_type a) (ldapEnabled w)) "ldap"
     then getStsWithLDAP (a_url a) (a_accessKey a) (a_secretKey a) peerCert
            = inr (stsAK, stsSK, stsTk) /\
          exp = Add (Add (now w) StsDefaultExpire) (- StsWindowTime)
     else stsAK = a_accessKey a /\ stsSK = a_secretKey a /\ stsTk = "" /\ exp = Unix 0 0).
Proof.
  intros H. unfold mainAliasSet in H.
  set (ctype := resolveType (a_type a) (ldapEnabled w)) in *.
  destruct (if negb (globalInsecure w) && negb (globalJSON w) && stdoutIsTerminal w
            then fst (promptTrustSelfSignedCert (tofu w) (a_alias a)) else (None, None))
    as [peerCert [err|]] eqn:Htrust; [discriminate|].
  destruct (String.eqb ctype "ldap") eqn:Hl.
  - destruct (getStsWithLDAP (a_url a) (a_accessKey a) (a_secretKey a) peerCert)
      as [e|[[k s] t]] eqn:Hg; [discriminate|].
    destruct (BuildS3Config _ _ _ _ _ _ _ _ _ _) as [[s3c [err|]] ev'] eqn:Hb; [discriminate|].
    destruct s3c as [s3Config|]; [|discriminate].
    destruct (setAlias _ _ _ _) as [err|al] eqn:Hs; [discriminate|].
    injection H as <- <-.
    exists peerCert, k, s, t, (Add (Add (now w) StsDefaultExpire) (- StsWindowTime)), s3Config.
    split; [exact Hb|]. split; [exact (setAlias_stored _ _ _ _ _ Hs)|]. done.
  - destruct (BuildS3Config _ _ _ _ _ _ _ _ _ _) as [[s3c [err|]] ev'] eqn:Hb; [discriminate|].
    destruct s3c as [s3Config|]; [|discriminate].
    destruct (setAlias _ _ _ _) as [err|al] eqn:Hs; [discriminate|].
    injection H as <- <-.
    exists peerCert, (a_accessKey a), (a_secretKey a), "", (Unix 0 0), s3Config.
    split; [exact Hb|]. split; [exact (setAlias_stored _ _ _ _ _ Hs)|]. done.
Qed.

End MainAliasSetProps.

(** ** Concrete runs of [mainAliasSet] *)

Definition demoNewS3Config (url : string) (cfg : aliasConfigV10) : S3.Config :=
  S3.mkConfig url (AccessKey cfg) (SecretKey cfg) (SessionToken cfg) "".

Definition demoSts (_ _ _ : string) (_ : option Certificate)
  : goerror + (string * string * string) :=
  inr ("STSACCESSKEY", "STSSECRETKEY", "STSTOKEN").

Definition demoArgs (ctype api : string) : aliasSetArgs :=
  mkAliasSetArgs "myminio" "http://localhost:9000" api "auto" ctype "minio" "minio123"
    ["myminio"; "http://localhost:9000"; "minio"; "minio123"].

(** An STS reply whose session token is empty. *)
Definition emptyTokenSts (_ _ _ : string) (_ : option Certificate)
  : goerror + (string * string * string) :=
  inr ("STSACCESSKEY", "STSSECRETKEY", "").

Definition failingSts (_ _ _ : string) (_ : option Certificate)
  : goerror + (string * string * string) :=
  inl (ErrMsg "LDAP credentials invalid").

Definition demoWorld : aliasSetWorld :=
  mkAliasSetWorld "off" true false false (httpsWorld selfSigned "" None)
    (Unix 1700000000 0) deniedWorld (inr ∅) None.

(** ** Properties of the stored alias record *)

Section AliasRecord.

Variable NewS3Config : string -> aliasConfigV10 -> S3.Config.
Variable getStsWithLDAP :
  string -> string -> string -> option Certificate -> goerror + (string * string * string).

(** C2: a run with credential type "ldap" that stores the alias records
    the expiry [now + 1h - 10min], i.e. 50 minutes after the time read
    before the STS exchange. *)
Theorem ldap_expiry_fifty_minutes (a : aliasSetArgs) (w : aliasSetWorld)
  (aliases : gmap string aliasConfigV10) (ev : list string) :
  resolveType (a_type a) (ldapEnabled w) = "ldap" ->
  mainAliasSet NewS3Config getStsWithLDAP a w = (Stored aliases, ev) ->
  exists cfg, aliases !! a_alias a = Some cfg /\ ExpireTime cfg = now w + 50 * Minute.
Proof.
  intros Hl H.
  destruct (mainAliasSet_stored _ _ _ _ _ _ H)
    as (peerCert & k & s & t & exp & s3Config & _ & Hlook & Hsts).
  rewrite Hl in Hsts. simpl in Hsts. destruct Hsts as [_ ->].
  eexists; split; [exact Hlook|]. simpl.
  unfold Add, StsDefaultExpire, StsWindowTime, Hour, Minute, Second. lia.
Qed.

(** C6: with an explicit, non-empty [--api], [BuildS3Config] tries no
    dialect and gives the same result whatever the server would answer
    to a probe, and a run that stores the alias tried no dialect and
    stores exactly that value as the record's API. *)
Theorem explicit_api_skips_probe (a : aliasSetArgs) (w : aliasSetWorld) :
  a_api a <> "" ->
  (forall (pw pw' : probeWorld) (url alias accessKey secretKey sessionToken path : string)
          (peerCert : option Certificate),
     snd (BuildS3Config NewS3Config pw url alias accessKey secretKey sessionToken
            (a_api a) path peerCert) = [] /\
     BuildS3Config NewS3Config pw' url alias accessKey secretKey sessionToken (a_api a) path peerCert =
     BuildS3Config NewS3Config pw url alias accessKey secretKey sessionToken (a_api a) path peerCert) /\
  (forall (aliases : gmap string aliasConfigV10) (ev : list string),
     mainAliasSet NewS3Config getStsWithLDAP a w = (Stored aliases, ev) ->
     ev = [] /\ exists cfg, aliases !! a_alias a = Some cfg /\ API cfg = a_api a).
Proof.
  intros Hapi. split.
  - intros pw pw' url alias ak sk tk path pc.
    destruct (BuildS3Config_explicit_api NewS3Config pw url alias ak sk tk (a_api a) path pc Hapi)
      as (Hev & Hind & _).
    split; [exact Hev|]. apply Hind.
  - intros aliases ev H.
    destruct (mainAliasSet_stored _ _ _ _ _ _ H)
      as (peerCert & k & s & t & exp & s3Config & Hb & Hlook & _).
    destruct (BuildS3Config_explicit_api NewS3Config (probeW w) (a_url a) (a_alias a) k s t
                (a_api a) (a_path a) peerCert Hapi) as (Hev & _ & cfg & Hcfg & Hsig).
    rewrite Hb in Hev, Hcfg. simpl in Hev, Hcfg. injection Hcfg as <-.
    split; [exact Hev|]. eexists; split; [exact Hlook|]. exact Hsig.
Qed.

(** C10: a run with credential type "ldap" that stores the alias keeps
    the LDAP username and password given by the user as the record's
    access and secret keys, next to the STS access key, secret key and
    session token returned by the exchange. *)
Theorem ldap_record_keeps_ldap_credentials (a : aliasSetArgs) (w : aliasSetWorld)
  (aliases : gmap string aliasConfigV10) (ev : list string) :
  resolveType (a_type a) (ldapEnabled w) = "ldap" ->
  mainAliasSet NewS3Config getStsWithLDAP a w = (Stored aliases, ev) ->
  exists cfg peerCert,
    aliases !! a_alias a = Some cfg /\
    AccessKey cfg = a_accessKey a /\ SecretKey cfg = a_secretKey a /\
    getStsWithLDAP (a_url a) (a_accessKey a) (a_secretKey a) peerCert
      = inr (StsAccessKey cfg, StsSecretKey cfg, StsSessionTk cfg) /\
    AType cfg = "ldap".
Proof.
  intros Hl H.
  destruct (mainAliasSet_stored _ _ _ _ _ _ H)
    as (peerCert & k & s & t & exp & s3Config & _ & Hlook & Hsts).
  rewrite Hl in Hsts, Hlook. simpl in Hsts. destruct Hsts as [Hg _].
  eexists _, peerCert. split; [exact Hlook|]. simpl. done.
Qed.

(** C7 (amended): a run that stores the alias with a credential type
    other than "ldap" records an empty STS session token and the expiry
    [time.Unix(0, 0)] (the Unix epoch, which is not the zero
    [time.Time]); with "ldap" it records the session token the STS
    exchange returned, which the code does not check to be non-empty,
    and an expiry strictly in the future at creation time, the run's
    clock reading [now w]. *)
Theorem stored_session_fields_by_kind (a : aliasSetArgs) (w : aliasSetWorld)
  (aliases : gmap string aliasConfigV10) (ev : list string) :
  mainAliasSet NewS3Config getStsWithLDAP a w = (Stored aliases, ev) ->
  exists cfg,
    aliases !! a_alias a = Some cfg /\
    (resolveType (a_type a) (ldapEnabled w) <> "ldap" ->
       StsSessionTk cfg = "" /\ ExpireTime cfg = Unix 0 0) /\
    (resolveType (a_type a) (ldapEnabled w) = "ldap" ->
       (exists peerCert k s,
          getStsWithLDAP (a_url a) (a_accessKey a) (a_secretKey a) peerCert
            = inr (k, s, StsSessionTk cfg)) /\
       now w < ExpireTime cfg).
Proof.
  intros H.
  destruct (mainAliasSet_stored _ _ _ _ _ _ H)
    as (peerCert & k & s & t & exp & s3Config & _ & Hlook & Hsts).
  eexists; split; [exact Hlook|]. simpl.
  destruct (String.eqb (resolveType (a_type a) (ldapEnabled w)) "ldap") eqn:Hl.
  - apply String.eqb_eq in Hl. destruct Hsts as [Hg ->].
    split; [intros Hne; contradiction|].
    intros _. split; [exists peerCert, k, s; exact Hg|].
    unfold Add, StsDefaultExpire, StsWindowTime, Hour, Minute, Second. lia.
  - apply String.eqb_neq in Hl. destruct Hsts as (_ & _ & -> & ->).
    split; [intros _; done|]. intros Heq; contradiction.
Qed.

End AliasRecord.

(** C7, as stated, fails on both kinds: a static ("normal") alias is
    stored with the expiry [time.Unix(0, 0)], which is not the zero
    [time.Time]; and an ldap alias whose STS reply carries an empty
    session token is stored with that empty token, since the code does
    not check it. *)
Lemma static_expiry_not_zero_time :
  ~ (forall (NewS3Config : string -> aliasConfigV10 -> S3.Config)
            (getSts : string -> string -> string -> option Certificate ->
                      goerror + (string * string * string))
            (a : aliasSetArgs) (w : aliasSetWorld)
            (aliases : gmap string aliasConfigV10) (ev : list string),
       resolveType (a_type a) (ldapEnabled w) <> "ldap" ->
       mainAliasSet NewS3Config getSts a w = (Stored aliases, ev) ->
       exists cfg, aliases !! a_alias a = Some cfg /\
         StsSessionTk cfg = "" /\ IsZero (ExpireTime cfg) = true) /\
  ~ (forall (NewS3Config : string -> aliasConfigV10 -> S3.Config)
            (getSts : string -> string -> string -> option Certificate ->
                      goerror + (string * string * string))
            (a : aliasSetArgs) (w : aliasSetWorld)
            (aliases : gmap string aliasConfigV10) (ev : list string),
       resolveType (a_type a) (ldapEnabled w) = "ldap" ->
       mainAliasSet NewS3Config getSts a w = (Stored aliases, ev) ->
       exists cfg, aliases !! a_alias a = Some cfg /\
         StsSessionTk cfg <> "" /\ now w < ExpireTime cfg).
Proof.
  split.
  - intros Hclaim.
    destruct (mainAliasSet demoNewS3Config demoSts (demoArgs "normal" "S3v4") demoWorld)
      as [[err|aliases] ev] eqn:E; [vm_compute in E; discriminate|].
    assert (Hne : resolveType (a_type (demoArgs "normal" "S3v4")) (ldapEnabled demoWorld) <> "ldap")
      by discriminate.
    destruct (Hclaim _ _ _ _ _ _ Hne E) as (cfg & Hlook & _ & Hz).
    vm_compute in E. injection E as <- <-.
    vm_compute in Hlook. injection Hlook as <-. vm_compute in Hz. discriminate.
  - intros Hclaim.
    destruct (mainAliasSet demoNewS3Config emptyTokenSts (demoArgs "ldap" "S3v4") demoWorld)
      as [[err|aliases] ev] eqn:E; [vm_compute in E; discriminate|].
    destruct (Hclaim _ _ (demoArgs "ldap" "S3v4") demoWorld _ _ eq_refl E) as (cfg & Hlook & Htk & _).
    vm_compute in E. injection E as <- <-.
    vm_compute in Hlook. injection Hlook as <-. apply Htk. reflexivity.
Qed.

Lemma ldap_expiry_fifty_minutes_witness :
  exists aliases ev,
    mainAliasSet demoNewS3Config demoSts (demoArgs "ldap" "") demoWorld = (Stored aliases, ev) /\
    exists cfg, aliases !! "myminio" = Some cfg /\ ExpireTime cfg = now demoWorld + 50 * Minute.
Proof.
  destruct (mainAliasSet demoNewS3Config demoSts (demoArgs "ldap" "") demoWorld)
    as [[err|aliases] ev] eqn:E; [vm_compute in E; discriminate|].
  exists aliases, ev. split; [reflexivity|].
  exact (ldap_expiry_fifty_minutes demoNewS3Config demoSts (demoArgs "ldap" "") demoWorld
           aliases ev eq_refl E).
Defined.

Lemma explicit_api_skips_probe_witness :
  exists aliases,
    mainAliasSet demoNewS3Config demoSts (demoArgs "normal" "S3v2") demoWorld = (Stored aliases, []) /\
    exists cfg, aliases !! "myminio" = Some cfg /\ API cfg = "S3v2".
Proof.
  destruct (mainAliasSet demoNewS3Config demoSts (demoArgs "normal" "S3v2") demoWorld)
    as [[err|aliases] ev] eqn:E; [vm_compute in E; discriminate|].
  assert (Hapi : a_api (demoArgs "normal" "S3v2") <> "") by discriminate.
  destruct (proj2 (explicit_api_skips_probe demoNewS3Config demoSts (demoArgs "normal" "S3v2")
                     demoWorld Hapi) aliases ev E) as [-> Hcfg].
  exists aliases. split; [reflexivity|exact Hcfg].
Defined.

Lemma ldap_record_keeps_ldap_credentials_witness :
  exists aliases ev,
    mainAliasSet demoNewS3Config demoSts (demoArgs "ldap" "") demoWorld = (Stored aliases, ev) /\
    exists cfg peerCert, aliases !! "myminio" = Some cfg /\
      AccessKey cfg = "minio" /\ SecretKey cfg = "minio123" /\
      demoSts "http://localhost:9000" "minio" "minio123" peerCert
        = inr (StsAccessKey cfg, StsSecretKey cfg, StsSessionTk cfg) /\
      AType cfg = "ldap".
Proof.
  destruct (mainAliasSet demoNewS3Config demoSts (demoArgs "ldap" "") demoWorld)
    as [[err|aliases] ev] eqn:E; [vm_compute in E; discriminate|].
  exists aliases, ev. split; [reflexivity|].
  exact (ldap_record_keeps_ldap_credentials demoNewS3Config demoSts (demoArgs "ldap" "") demoWorld
           aliases ev eq_refl E).
Defined.

Lemma stored_session_fields_by_kind_witness :
  exists aliases ev,
    mainAliasSet demoNewS3Config demoSts (demoArgs "normal" "") demoWorld = (Stored aliases, ev) /\
    exists cfg, aliases !! "myminio" = Some cfg /\
      ("normal" <> "ldap" -> StsSessionTk cfg = "" /\ ExpireTime cfg = Unix 0 0).
Proof.
  destruct (mainAliasSet demoNewS3Config demoSts (demoArgs "normal" "") demoWorld)
    as [[err|aliases] ev] eqn:E; [vm_compute in E; discriminate|].
  exists aliases, ev. split; [reflexivity|].
  destruct (stored_session_fields_by_kind demoNewS3Config demoSts (demoArgs "normal" "") demoWorld
              aliases ev E) as (cfg & Hlook & Hstatic & _).
  exists cfg. split; [exact Hlook|exact Hstatic].
Defined.

Lemma probe_v4_then_v2_witness :
  fst (probeS3Signature mismatchWorld)
  = ("", Some (Trace (Trace (NewError (ErrorResponse "SignatureDoesNotMatch"
                                        ("The request signature does not match under " ++ "s3v2")))
                        ["s3v2"]) ["s3v4"; "s3v2"])).
Proof.
  exact (proj2 (proj2 (proj2 (probe_v4_then_v2 mismatchWorld) _ eq_refl)) _ eq_refl).
Defined.

(** * Further properties of the alias, acl and admin commands *)

Example FormatInt_samples :
  FormatInt 0 = "0" /\ FormatInt 1007 = "1007" /\ FormatInt (-42) = "-42" /\
  FormatInt 9223372036854775807 = "9223372036854775807".
Proof. vm_compute. repeat split. Qed.

Example fetchAliasKeys_piped :
  fetchAliasKeys ["mys3"; "https://s3.amazonaws.com"]
    (mkKeyInput false (list_ascii_of_string ("AK" ++ String CR nl ++ "SK" ++ nl)) "")
  = ("AK", "SK", [ReadStdinLine; ReadStdinLine]).
Proof. vm_compute. reflexivity. Qed.

Example deprecatedPath_dns : deprecatedPath true "  DNS " "auto" = "off".
Proof. vm_compute. reflexivity. Qed.

(** Unicode white space is trimmed too: U+00A0 (bytes C2 A0) before the
    value, U+3000 (bytes E3 80 80) after it. *)
Example deprecatedPath_nbsp :
  deprecatedPath true (string_of_list_ascii ([ascii_of_nat 194; ascii_of_nat 160]
                         ++ list_ascii_of_string "dns")) "auto" = "off".
Proof. vm_compute. reflexivity. Qed.

Example TrimSpace_ideographic :
  TrimSpace (string_of_list_ascii (list_ascii_of_string " path" ++
                [ascii_of_nat 227; ascii_of_nat 128; ascii_of_nat 128; "009"%char])) = "path".
Proof. vm_compute. reflexivity. Qed.

(** An invalid byte decodes to [RuneError], which is no space. *)
Example TrimSpace_invalid_byte :
  TrimSpace (string_of_list_ascii ([ascii_of_nat 255] ++ list_ascii_of_string "dns ")) =
  string_of_list_ascii ([ascii_of_nat 255] ++ list_ascii_of_string "dns").
Proof. vm_compute. reflexivity. Qed.

Ltac case_code :=
  repeat match goal with
  | |- context [match ?x with _ => _ end] => let E := fresh "E" in destruct x eqn:E
  | |- context [if ?x then _ else _] => let E := fresh "E" in destruct x eqn:E
  end.

(** The trust prompt's effects are always a prefix of: the verified
    request, the insecure request, the fingerprint prompt, the read of
    the answer, the write of [<alias>.crt]; so it asks at most once and
    writes at most one file, only after asking. *)
Theorem trust_prompt_effects_prefix (w : tofuWorld) (alias : string) :
  exists (c : Certificate) (k : nat),
    snd (promptTrustSelfSignedCert w alias) = firstn k (trustEffects alias c).
Proof.
  unfold promptTrustSelfSignedCert, fetchPeerCertificate.
  destruct (newRequest w); simpl; [exists selfSigned, 0%nat; reflexivity|].
  destruct (fetchDo w) as [e|[|c0 cs]]; case_code; simpl;
  first [ exists selfSigned, 0%nat; reflexivity
        | exists selfSigned, 1%nat; reflexivity
        | exists selfSigned, 2%nat; reflexivity
        | eexists _, 4%nat; reflexivity
        | eexists _, 5%nat; reflexivity ].
Qed.

(** A certificate is pinned only when the verified request failed with
    an unknown-authority error; it is then the first certificate the
    insecure request returned, it is self-signed, and every step up to
    writing [<alias>.crt] took place. *)
Theorem pinned_cert_is_fetched_self_signed (w : tofuWorld) (alias : string) (c : Certificate) :
  fst (fst (promptTrustSelfSignedCert w alias)) = Some c ->
  (exists e, doRootCAs w = Some e /\ Contains (Error e) unknownAuthority = true) /\
  (exists more, fetchDo w = inr (c :: more)) /\
  SubjectKeyId c = AuthorityKeyId c /\
  snd (promptTrustSelfSignedCert w alias) = trustEffects alias c.
Proof.
  unfold promptTrustSelfSignedCert, fetchPeerCertificate.
  destruct (newRequest w); simpl; [discriminate|].
  destruct (fetchDo w) as [e|[|c0 cs]]; case_code; simpl; try discriminate.
  intros H. injection H as <-.
  split; [eexists; split; [reflexivity|apply negb_false_iff; assumption]|].
  split; [eexists; reflexivity|].
  split; [|reflexivity].
  match goal with H : negb (bytesEqual _ _) = false |- _ =>
    apply negb_false_iff in H; unfold bytesEqual in H; exact (bool_decide_eq_true_1 _ H) end.
Qed.

Lemma pinned_cert_is_fetched_self_signed_witness :
  fst (fst (promptTrustSelfSignedCert (httpsWorld selfSigned ("y" ++ nl) None) "a")) = Some selfSigned /\
  SubjectKeyId selfSigned = AuthorityKeyId selfSigned.
Proof.
  split; [reflexivity|].
  exact (proj1 (proj2 (proj2 (pinned_cert_is_fetched_self_signed (httpsWorld selfSigned ("y" ++ nl) None) "a" selfSigned eq_refl)))).
Defined.

(** [prepareStsClient] panics (adds to a nil pool) exactly when the
    process-wide pool is nil and a pinned certificate is given. *)
Theorem sts_client_panics_iff (g : option CertPool) (pc : option Certificate) (schem : string) :
  prepareStsClient g pc schem = None <-> g = None /\ pc <> None.
Proof.
  unfold prepareStsClient.
  destruct g, pc; simpl; split; try discriminate; try (intros [? ?]; congruence).
  intros _. split; [reflexivity|discriminate].
Qed.

(** The signature probe returns "s3v4" or "s3v2" without an error, or
    the empty dialect with an error; it stats at most once per dialect,
    V4 before V2. *)
Theorem probe_outcome_shape (w : probeWorld) :
  match fst (probeS3Signature w) with
  | (d, None) => d = "s3v4" \/ d = "s3v2"
  | (d, Some _) => d = ""
  end /\
  In (snd (probeS3Signature w)) [[]; ["s3v4"]; ["s3v2"]; ["s3v4"; "s3v2"]].
Proof.
  assert (Shape : forall stype,
            match probeSignatureType w stype with
            | ((d, None), ev) => d = stype /\ ev = [stype]
            | ((d, Some _), ev) => d = "" /\ (ev = [] \/ ev = [stype])
            end).
  { intros stype. unfold probeSignatureType.
    destruct (S3New w stype); [auto|].
    destruct (Stat w stype) as [err|]; [|auto].
    destruct (ToGoError err); simpl; auto;
      destruct (String.eqb _ "AccessDenied"); auto. }
  pose proof (Shape "s3v4") as S4. pose proof (Shape "s3v2") as S2.
  unfold probeS3Signature.
  destruct (probeSignatureType w "s3v4") as [[d4 [e4|]] ev4];
    destruct (probeSignatureType w "s3v2") as [[d2 [e2|]] ev2]; simpl;
    repeat match goal with H : _ /\ _ |- _ => destruct H as [? ?] end;
    subst; simpl; repeat match goal with H : _ \/ _ |- _ => destruct H end;
    subst; simpl; auto 10.
Qed.

(** When the signature probe fails, [BuildS3Config] returns no config
    and an error whose trace holds the access key and the secret key. *)
Theorem probe_failure_trace_holds_keys (NewS3Config : string -> aliasConfigV10 -> S3.Config)
  (pw : probeWorld) (url alias accessKey secretKey sessionToken path : string)
  (peerCert : option Certificate) (perr : perror) :
  snd (fst (probeS3Signature pw)) = Some perr ->
  exists err,
    fst (BuildS3Config NewS3Config pw url alias accessKey secretKey sessionToken "" path peerCert)
      = (None, Some err) /\
    In accessKey (concat (frames err)) /\ In secretKey (concat (frames err)).
Proof.
  intros H. unfold BuildS3Config. simpl.
  destruct (probeS3Signature pw) as [[api' e] ev]. simpl in H. subst e.
  eexists; split; [reflexivity|]. simpl.
  split; apply in_concat; eexists; (split; [apply in_or_app; right; left; reflexivity|]);
    simpl; auto.
Qed.

Lemma probe_failure_trace_holds_keys_witness :
  exists err,
    fst (BuildS3Config demoNewS3Config mismatchWorld "http://localhost:9000" "myminio"
           "minio" "minio123" "" "" "auto" None) = (None, Some err) /\
    In "minio123" (concat (frames err)).
Proof.
  destruct (probe_failure_trace_holds_keys demoNewS3Config mismatchWorld "http://localhost:9000"
              "myminio" "minio" "minio123" "" "auto" None _ eq_refl) as (err & H1 & _ & H3).
  exists err. split; assumption.
Defined.

(** ** Properties of mainAliasSet beyond the record fields *)

Section AliasSetMore.

Variable NewS3Config : string -> aliasConfigV10 -> S3.Config.
Variable getStsWithLDAP :
  string -> string -> string -> option Certificate -> goerror + (string * string * string).

Lemma mainAliasSet_setAlias (a : aliasSetArgs) (w : aliasSetWorld)
  (aliases : gmap string aliasConfigV10) (ev : list string) :
  mainAliasSet NewS3Config getStsWithLDAP a w = (Stored aliases, ev) ->
  exists cfg, setAlias (loadMcConfig w) (saveMcConfig w) (a_alias a) cfg = inr aliases.
Proof.
  intros H. unfold mainAliasSet in H.
  set (ctype := resolveType (a_type a) (ldapEnabled w)) in *.
  destruct (if negb (globalInsecure w) && negb (globalJSON w) && stdoutIsTerminal w
            then fst (promptTrustSelfSignedCert (tofu w) (a_alias a)) else (None, None))
    as [peerCert [err|]]; [discriminate|].
  destruct (String.eqb ctype "ldap").
  - destruct (getStsWithLDAP (a_url a) (a_accessKey a) (a_secretKey a) peerCert)
      as [e|[[k s] t]]; [discriminate|].
    destruct (BuildS3Config _ _ _ _ _ _ _ _ _ _) as [[s3c [err|]] ev']; [discriminate|].
    destruct s3c as [s3Config|]; [|discriminate].
    destruct (setAlias _ _ _ _) as [err|al] eqn:Hs; [discriminate|].
    injection H as <- <-. eexists; exact Hs.
  - destruct (BuildS3Config _ _ _ _ _ _ _ _ _ _) as [[s3c [err|]] ev']; [discriminate|].
    destruct s3c as [s3Config|]; [|discriminate].
    destruct (setAlias _ _ _ _) as [err|al] eqn:Hs; [discriminate|].
    injection H as <- <-. eexists; exact Hs.
Qed.

(** Storing an alias rewrites the configuration file with the aliases
    as loaded, the one alias set to the record this run built (the URL
    and signature of the S3 config [BuildS3Config] returned, the user's
    keys, the path, the resolved type and the STS fields), and every
    other alias exactly as it was; it needs the load and the save of the
    file to succeed. *)
Theorem stored_alias_keeps_other_aliases (a : aliasSetArgs) (w : aliasSetWorld)
  (aliases : gmap string aliasConfigV10) (ev : list string) :
  mainAliasSet NewS3Config getStsWithLDAP a w = (Stored aliases, ev) ->
  exists (loaded : gmap string aliasConfigV10) peerCert stsAK stsSK stsTk exp s3Config,
    loadMcConfig w = inr loaded /\ saveMcConfig w = None /\
    BuildS3Config NewS3Config (probeW w) (a_url a) (a_alias a) stsAK stsSK stsTk
      (a_api a) (a_path a) peerCert = ((Some s3Config, None), ev) /\
    (if String.eqb (resolveType (a_type a) (ldapEnabled w)) "ldap"
     then getStsWithLDAP (a_url a) (a_accessKey a) (a_secretKey a) peerCert
            = inr (stsAK, stsSK, stsTk) /\
          exp = Add (Add (now w) StsDefaultExpire) (- StsWindowTime)
     else stsAK = a_accessKey a /\ stsSK = a_secretKey a /\ stsTk = "" /\ exp = Unix 0 0) /\
    aliases = <[a_alias a := mkAliasConfigV10 (S3.HostURL s3Config) (a_accessKey a) (a_secretKey a) ""
                  (S3.Signature s3Config) (a_path a) (resolveType (a_type a) (ldapEnabled w))
                  stsAK stsSK stsTk exp]> loaded /\
    (forall k, k <> a_alias a -> aliases !! k = loaded !! k).
Proof.
  intros H.
  destruct (mainAliasSet_stored _ _ _ _ _ _ H)
    as (peerCert & k & s & t & exp & s3Config & Hb & Hlook & Hsts).
  destruct (mainAliasSet_setAlias a w aliases ev H) as [cfg Hs].
  unfold setAlias in Hs.
  destruct (loadMcConfig w) as [err|loaded]; [discriminate|].
  destruct (saveMcConfig w) as [err|]; [discriminate|].
  injection Hs as Hs. subst aliases.
  rewrite lookup_insert_eq in Hlook. injection Hlook as ->.
  exists loaded, peerCert, k, s, t, exp, s3Config.
  split; [reflexivity|]. split; [reflexivity|]. split; [exact Hb|]. split; [exact Hsts|].
  split; [reflexivity|].
  intros k' Hk. rewrite lookup_insert_ne; [reflexivity|congruence].
Qed.

(** With credential type "ldap", an LDAP exchange that fails with the
    peer certificate the trust step produced ends the command with a
    fatal error before any signature probe, and nothing is stored. *)
Theorem ldap_failure_stops_before_probe (a : aliasSetArgs) (w : aliasSetWorld) (e : goerror) :
  resolveType (a_type a) (ldapEnabled w) = "ldap" ->
  getStsWithLDAP (a_url a) (a_accessKey a) (a_secretKey a) (fst (trustStep a w)) = inl e ->
  exists err, mainAliasSet NewS3Config getStsWithLDAP a w = (Fatal err, []).
Proof.
  intros Hl Hsts. unfold trustStep in Hsts. unfold mainAliasSet. rewrite Hl. simpl.
  destruct (if negb (globalInsecure w) && negb (globalJSON w) && stdoutIsTerminal w
            then fst (promptTrustSelfSignedCert (tofu w) (a_alias a)) else (None, None))
    as [peerCert [err|]]; [eexists; reflexivity|].
  simpl in Hsts. rewrite Hsts. eexists; reflexivity.
Qed.

(** With [--insecure], [--json] or a standard output that is no terminal,
    the trust prompt does not run: the outcome does not depend on what
    the endpoint's TLS would answer. *)
Theorem no_trust_prompt_when_insecure_json_or_no_tty (a : aliasSetArgs) (w : aliasSetWorld) :
  globalInsecure w = true \/ globalJSON w = true \/ stdoutIsTerminal w = false ->
  forall t : tofuWorld,
    mainAliasSet NewS3Config getStsWithLDAP a (setTofu w t) =
    mainAliasSet NewS3Config getStsWithLDAP a w.
Proof.
  intros Hc t.
  assert (Hf : negb (globalInsecure w) && negb (globalJSON w) && stdoutIsTerminal w = false).
  { destruct Hc as [ -> | [ -> | -> ] ]; simpl; [reflexivity| |];
      destruct (negb (globalInsecure w)); simpl; auto using andb_false_r. }
  unfold mainAliasSet. cbn [setTofu globalInsecure globalJSON stdoutIsTerminal tofu now probeW
                              loadMcConfig saveMcConfig ldapEnabled].
  rewrite Hf. reflexivity.
Qed.

(** A [--type] other than "", "auto" and "ldap" (e.g. "normal", or a
    misspelt value) is stored verbatim as the record's type, and the
    credentials are handled as static: the STS fields copy the keys and
    the session token is empty. *)
Theorem explicit_type_kept_verbatim (a : aliasSetArgs) (w : aliasSetWorld)
  (aliases : gmap string aliasConfigV10) (ev : list string) :
  a_type a <> "" -> a_type a <> "auto" -> a_type a <> "ldap" ->
  mainAliasSet NewS3Config getStsWithLDAP a w = (Stored aliases, ev) ->
  exists cfg, aliases !! a_alias a = Some cfg /\ AType cfg = a_type a /\
    StsAccessKey cfg = a_accessKey a /\ StsSecretKey cfg = a_secretKey a /\
    StsSessionTk cfg = "".
Proof.
  intros H1 H2 H3 H.
  assert (Hr : resolveType (a_type a) (ldapEnabled w) = a_type a).
  { unfold resolveType. rewrite (eqb_false_neq _ _ H1), (eqb_false_neq _ _ H2). reflexivity. }
  destruct (mainAliasSet_stored _ _ _ _ _ _ H)
    as (peerCert & k & s & t & exp & s3Config & _ & Hlook & Hsts).
  rewrite Hr in Hlook, Hsts. rewrite (eqb_false_neq _ _ H3) in Hsts.
  destruct Hsts as (-> & -> & -> & _).
  eexists; split; [exact Hlook|]. simpl. auto.
Qed.

End AliasSetMore.

Lemma explicit_type_kept_verbatim_witness :
  exists aliases ev,
    mainAliasSet demoNewS3Config demoSts (demoArgs "nromal" "S3v4") demoWorld = (Stored aliases, ev) /\
    exists cfg, aliases !! "myminio" = Some cfg /\ AType cfg = "nromal" /\
      StsAccessKey cfg = "minio" /\ StsSecretKey cfg = "minio123" /\ StsSessionTk cfg = "".
Proof.
  destruct (mainAliasSet demoNewS3Config demoSts (demoArgs "nromal" "S3v4") demoWorld)
    as [[err|aliases] ev] eqn:E; [vm_compute in E; discriminate|].
  exists aliases, ev. split; [reflexivity|].
  exact (explicit_type_kept_verbatim demoNewS3Config demoSts (demoArgs "nromal" "S3v4") demoWorld
           aliases ev ltac:(discriminate) ltac:(discriminate) ltac:(discriminate) E).
Defined.

Lemma ldap_failure_stops_before_probe_witness :
  exists err, mainAliasSet demoNewS3Config failingSts (demoArgs "ldap" "") demoWorld = (Fatal err, []).
Proof.
  apply (ldap_failure_stops_before_probe demoNewS3Config failingSts (demoArgs "ldap" "") demoWorld
           (ErrMsg "LDAP credentials invalid")); reflexivity.
Defined.

Lemma stored_alias_keeps_other_aliases_witness :
  exists aliases ev,
    mainAliasSet demoNewS3Config demoSts (demoArgs "normal" "") demoWorld = (Stored aliases, ev) /\
    exists loaded s3Config, loadMcConfig demoWorld = inr loaded /\
      aliases = <[ "myminio" := mkAliasConfigV10 (S3.HostURL s3Config) "minio" "minio123" ""
                     (S3.Signature s3Config) "auto" "normal" "minio" "minio123" "" (Unix 0 0)]> loaded.
Proof.
  destruct (mainAliasSet demoNewS3Config demoSts (demoArgs "normal" "") demoWorld)
    as [[err|aliases] ev] eqn:E; [vm_compute in E; discriminate|].
  exists aliases, ev. split; [reflexivity|].
  destruct (stored_alias_keeps_other_aliases demoNewS3Config demoSts _ _ _ _ E)
    as (loaded & pc & k & sk & t & exp & s3Config & Hl & _ & _ & Hsts & Ha & _).
  simpl in Hsts. destruct Hsts as (-> & -> & -> & ->).
  exists loaded, s3Config. split; [exact Hl|exact Ha].
Defined.

Lemma no_trust_prompt_when_insecure_json_or_no_tty_witness :
  mainAliasSet demoNewS3Config demoSts (demoArgs "normal" "") (setTofu demoWorld refusedWorld) =
  mainAliasSet demoNewS3Config demoSts (demoArgs "normal" "") demoWorld.
Proof.
  apply (no_trust_prompt_when_insecure_json_or_no_tty demoNewS3Config demoSts).
  left. reflexivity.
Defined.

(** ** Properties of configurePeerCertificate *)

Lemma AddCert_inPool (p : CertPool) (c : Certificate) : inPool c (AddCert p c) = true.
Proof.
  unfold AddCert, inPool. destruct (existsb _ p) eqn:E; [exact E|].
  rewrite existsb_app, orb_true_iff. right. simpl. rewrite (bytesEqual_true _ _ eq_refl). reflexivity.
Qed.

(** When the process has a root pool, or the transport already carries
    one, the transport's TLS config ends with a root pool that contains
    the peer certificate. *)
Theorem configured_roots_trust_peer (g : option CertPool) (tr : option transport)
  (c : Certificate) :
  g <> None \/ hasRootPool tr = true ->
  exists cfg pool,
    TLSClientConfig (snd (configurePeerCertificate g tr c)) = Some cfg /\
    RootCAs cfg = Some pool /\ inPool c pool = true.
Proof.
  intros H.
  assert (Hv : g <> None -> exists cfg pool,
    TLSClientConfig (mkTransport (Some (rootsOnly (match g with Some p => Some (AddCert p c)
                                                   | None => None end)))) = Some cfg /\
    RootCAs cfg = Some pool /\ inPool c pool = true).
  { intros Hg. destruct g as [p|]; [|congruence].
    do 2 eexists. split; [reflexivity|]. split; [reflexivity|]. apply AddCert_inPool. }
  unfold configurePeerCertificate, hasRootPool in *.
  destruct tr as [t|]; [|destruct H as [H|H]; [exact (Hv H)|discriminate]].
  destruct (TLSClientConfig t) as [cf|]; [|destruct H as [H|H]; [exact (Hv H)|discriminate]].
  destruct (RootCAs cf) as [p|] eqn:Hr.
  - do 2 eexists. split; [reflexivity|]. split; [reflexivity|]. apply AddCert_inPool.
  - simpl in H. destruct H as [H|H]; [exact (Hv H)|discriminate].
Qed.

(** With no process-wide root pool and no root pool on the transport,
    the peer certificate is dropped: the transport gets a TLS config with
    no root pool (the system roots), and any earlier TLS settings of the
    transport, such as skipping verification, are replaced. *)
Theorem peer_cert_dropped_without_root_pool (tr : option transport) (c : Certificate) :
  hasRootPool tr = false ->
  configurePeerCertificate None tr c = (None, mkTransport (Some (mkTlsConfig None false 0))).
Proof.
  intros H. unfold configurePeerCertificate, hasRootPool, notNil in *.
  destruct tr as [t|]; [|reflexivity].
  destruct (TLSClientConfig t) as [cf|]; [|reflexivity].
  destruct (RootCAs cf); [discriminate|reflexivity].
Qed.

Lemma configured_roots_trust_peer_witness :
  exists cfg pool,
    TLSClientConfig (snd (configurePeerCertificate (Some []) None selfSigned)) = Some cfg /\
    RootCAs cfg = Some pool /\ inPool selfSigned pool = true.
Proof.
  apply configured_roots_trust_peer. left. discriminate.
Defined.

Lemma peer_cert_dropped_without_root_pool_witness :
  configurePeerCertificate None
    (Some (mkTransport (Some (mkTlsConfig None true VersionTLS12)))) selfSigned
  = (None, mkTransport (Some (mkTlsConfig None false 0))).
Proof.
  apply peer_cert_dropped_without_root_pool. reflexivity.
Defined.

(** ** Properties of fetchAliasKeys *)

Lemma readSlice_newline (n : nat) (l rest : list ascii) :
  ~ In newline l -> (length l < n)%nat ->
  readSlice n (l ++ newline :: rest) = ((l ++ [newline])%list, rest, false).
Proof.
  revert n. induction l as [|c l IH]; intros n Hn Hl; destruct n as [|n]; simpl in *; try lia.
  - rewrite ?Ascii.eqb_refl. reflexivity.
  - destruct (Ascii.eqb_spec c newline) as [->|_]; [tauto|].
    rewrite IH by (tauto || lia). reflexivity.
Qed.

Lemma readSlice_eof (n : nat) (l : list ascii) :
  ~ In newline l -> (length l < n)%nat -> readSlice n l = (l, [], false).
Proof.
  revert n. induction l as [|c l IH]; intros n Hn Hl; destruct n as [|n]; simpl in *; try lia.
  - reflexivity.
  - destruct (Ascii.eqb_spec c newline) as [->|_]; [tauto|].
    rewrite IH by (tauto || lia). reflexivity.
Qed.

Lemma readLine_plain (l t rest : list ascii) :
  plainLine l -> lineEnd t rest -> readLine (l ++ t ++ rest) = (l, rest).
Proof.
  intros (Hn & Hcr & Hlen) Ht. unfold readLine.
  destruct Ht as [->|[->|[-> ->]]].
  - change (([newline] ++ rest)%list) with (newline :: rest).
    rewrite readSlice_newline by (auto; unfold defaultBufSize in *; lia).
    rewrite rev_app_distr. cbn [rev app]. rewrite Ascii.eqb_refl.
    destruct (rev l) as [|d l''] eqn:Hr.
    + apply (f_equal (@rev ascii)) in Hr. rewrite rev_involutive in Hr. subst. reflexivity.
    + destruct (Ascii.eqb_spec d CR) as [->|_].
      * exfalso. apply (Hcr (rev l'')).
        rewrite <- (rev_involutive l), Hr. reflexivity.
      * rewrite <- Hr, rev_involutive. reflexivity.
  - assert (Hn' : ~ In newline (l ++ [CR])).
    { rewrite in_app_iff. simpl. intros [H|[H|[]]]; [tauto|discriminate]. }
    replace ((l ++ [CR; newline] ++ rest)%list) with (((l ++ [CR]) ++ newline :: rest)%list)
      by (rewrite <- app_assoc; reflexivity).
    rewrite readSlice_newline by (auto; rewrite length_app; cbn [length]; unfold defaultBufSize in *; lia).
    rewrite !rev_app_distr. cbn [rev app]. rewrite Ascii.eqb_refl.
    change (Ascii.eqb CR CR) with true. rewrite rev_involutive. reflexivity.
  - rewrite !app_nil_r. rewrite readSlice_eof by (auto; unfold defaultBufSize in *; lia).
    destruct (rev l) as [|c l'] eqn:Hr.
    + apply (f_equal (@rev ascii)) in Hr. rewrite rev_involutive in Hr. subst. reflexivity.
    + destruct (Ascii.eqb_spec c newline) as [->|_]; [|reflexivity].
      exfalso. apply Hn. rewrite <- (rev_involutive l), Hr. simpl.
      rewrite in_app_iff. right. left. reflexivity.
Qed.

(** With two arguments and standard input that is not a terminal (keys
    piped in), the access key is the first line and the secret key the
    second, without their "\n" or "\r\n"; nothing is printed.  Each of
    the two lines has no newline inside, does not end in "\r", is at most
    4094 bytes long (it fits [bufio.Reader]'s 4096-byte buffer with its
    terminator), and ends in "\n", "\r\n" or the end of the input. *)
Theorem piped_keys_are_first_two_lines (args : list string) (l1 t1 l2 t2 rest : list ascii)
  (pw : string) :
  length args = 2%nat -> plainLine l1 -> plainLine l2 ->
  lineEnd t1 (l2 ++ t2 ++ rest) -> lineEnd t2 rest ->
  fetchAliasKeys args (mkKeyInput false (l1 ++ t1 ++ l2 ++ t2 ++ rest) pw)
  = (string_of_list_ascii l1, string_of_list_ascii l2, [ReadStdinLine; ReadStdinLine]).
Proof.
  intros Ha H1 H2 Ht1 Ht2. unfold fetchAliasKeys. rewrite Ha. simpl.
  rewrite (readLine_plain l1 t1 (l2 ++ t2 ++ rest) H1 Ht1).
  rewrite (readLine_plain l2 t2 rest H2 Ht2). reflexivity.
Qed.

(** [fetchAliasKeys] reads or prints something exactly when it is given
    two or three arguments; otherwise the keys are the third and fourth
    arguments (empty when missing). *)
Theorem fetch_keys_interacts_iff_two_or_three_args (args : list string) (inp : keyInput) :
  (snd (fetchAliasKeys args inp) = [] <-> length args <> 2%nat /\ length args <> 3%nat) /\
  (length args <> 2%nat -> length args <> 3%nat ->
   fst (fetchAliasKeys args inp) = (argGet args 2, argGet args 3)).
Proof.
  unfold fetchAliasKeys.
  destruct (Nat.eqb_spec (length args) 2) as [H2|H2];
    destruct (Nat.eqb_spec (length args) 3) as [H3|H3]; [lia| | |].
  - destruct (readLine (stdinBytes inp)) as [v r].
    destruct (isTerminal inp); [|destruct (readLine r)]; cbn;
      (split; [split; [discriminate|intros [H _]; contradiction]|intros; contradiction]).
  - destruct (isTerminal inp); [|destruct (readLine (stdinBytes inp))]; cbn;
      (split; [split; [discriminate|intros [_ H]; contradiction]|intros; contradiction]).
  - cbn. split; [tauto|reflexivity].
Qed.

(** On a terminal with two or three arguments the secret key is the
    password typed (not echoed), after the prompt; a line of standard
    input is read only for the access key, i.e. with two arguments. *)
Theorem terminal_secret_is_password (args : list string) (inp : keyInput) :
  isTerminal inp = true -> length args = 2%nat \/ length args = 3%nat ->
  snd (fst (fetchAliasKeys args inp)) = typedPassword inp /\
  In (PrintPrompt "Enter Secret Key: ") (snd (fetchAliasKeys args inp)) /\
  (In ReadStdinLine (snd (fetchAliasKeys args inp)) <-> length args = 2%nat).
Proof.
  intros Ht Ha. unfold fetchAliasKeys. rewrite Ht.
  destruct Ha as [Ha|Ha]; rewrite Ha; simpl.
  - destruct (readLine (stdinBytes inp)) as [v r]. simpl.
    split; [reflexivity|]. split; [tauto|]. split; [tauto|auto].
  - split; [reflexivity|]. split; [tauto|].
    split; [intros [H|[H|[H|[]]]]; discriminate|discriminate].
Qed.

Ltac plain_line :=
  split; [intros Hin; vm_compute in Hin; repeat destruct Hin as [Hin|Hin]; (discriminate || contradiction)
         |split; [intros l0 Heq; apply (f_equal (@rev ascii)) in Heq;
                  rewrite rev_app_distr in Heq; vm_compute in Heq; discriminate
                 |apply Nat.leb_le; vm_compute; reflexivity]].

Lemma piped_keys_are_first_two_lines_witness :
  fetchAliasKeys ["myminio"; "http://localhost:9000"]
    (mkKeyInput false (list_ascii_of_string "minio" ++ [CR; newline] ++
                       list_ascii_of_string "minio123" ++ [newline] ++ []) "")
  = ("minio", "minio123", [ReadStdinLine; ReadStdinLine]).
Proof.
  apply (piped_keys_are_first_two_lines _ (list_ascii_of_string "minio") _
           (list_ascii_of_string "minio123")).
  - reflexivity.
  - plain_line.
  - plain_line.
  - right; left; reflexivity.
  - left; reflexivity.
Defined.

Lemma terminal_secret_is_password_witness :
  let r := fetchAliasKeys ["myminio"; "http://localhost:9000"; "minio"]
             (mkKeyInput true [] "minio123") in
  snd (fst r) = "minio123" /\ In (PrintPrompt "Enter Secret Key: ") (snd r) /\
  (In ReadStdinLine (snd r) <-> 3%nat = 2%nat).
Proof.
  apply (terminal_secret_is_password ["myminio"; "http://localhost:9000"; "minio"]
           (mkKeyInput true [] "minio123")); [reflexivity|right; reflexivity].
Defined.

(** ** The deprecated --lookup flag *)

Lemma forallb_rev {A} (f : A -> bool) (l : list A) : forallb f (rev l) = forallb f l.
Proof.
  induction l as [|x l IH]; [reflexivity|].
  simpl. rewrite forallb_app, IH. simpl. rewrite andb_true_r, andb_comm. reflexivity.
Qed.

Section TrimSpaceProps.
Local Open Scope Z_scope.

Lemma byteOf_range (c : ascii) : 0 <= byteOf c < 256.
Proof.
  unfold byteOf. pose proof (N_ascii_bounded c). lia.
Qed.

Lemma asciiSpace_small (c : ascii) : isAsciiSpace c = true -> byteOf c < RuneSelf.
Proof.
  unfold isAsciiSpace, RuneSelf. intros H.
  apply orb_true_iff in H as [H|H];
    [apply Z.eqb_eq in H|apply andb_true_iff in H as [_ H]; apply Z.leb_le in H]; lia.
Qed.

Lemma asciiSpace_IsSpace (c : ascii) : isAsciiSpace c = true -> IsSpace (byteOf c) = true.
Proof.
  unfold isAsciiSpace. generalize (byteOf c) as b. intros b H.
  assert (b = 32 \/ b = 9 \/ b = 10 \/ b = 11 \/ b = 12 \/ b = 13) as Hb.
  { apply orb_true_iff in H as [H|H];
      [apply Z.eqb_eq in H|apply andb_true_iff in H as [H1 H2];
                           apply Z.leb_le in H1; apply Z.leb_le in H2]; lia. }
  destruct Hb as [ -> | [ -> | [ -> | [ -> | [ -> | -> ] ] ] ] ]; reflexivity.
Qed.

Lemma asciiSpace_not_high (c : ascii) : isAsciiSpace c = true -> (RuneSelf <=? byteOf c)%Z = false.
Proof.
  intros H. apply Z.leb_gt, asciiSpace_small, H.
Qed.

Lemma DecodeRune_ascii (c : ascii) (s : list ascii) :
  byteOf c < RuneSelf -> DecodeRuneInString (c :: s) = (byteOf c, 1%nat).
Proof.
  intros H. unfold DecodeRuneInString. apply Z.ltb_lt in H. rewrite H. reflexivity.
Qed.

Lemma first_shape (b : Z) (sz : nat) (lo hi : Z) :
  first b = Some (sz, lo, hi) -> (2 <= sz <= 4)%nat /\ 128 <= lo.
Proof.
  unfold first, locb. intros H.
  repeat match type of H with context [if ?x then _ else _] => destruct x end;
    inversion H; subst; lia.
Qed.

Lemma outside_false (lo hi b : Z) : outside lo hi b = false -> lo <= b <= hi.
Proof.
  unfold outside. intros H. apply orb_false_iff in H as [H1 H2].
  apply Z.ltb_ge in H1. apply Z.ltb_ge in H2. lia.
Qed.

Ltac decode_close :=
  repeat match goal with
  | H : first _ = Some (_, _, _) |- _ => apply first_shape in H as [? ?]
  | H : (_ <? _)%nat = true |- _ => apply Nat.ltb_lt in H
  | H : (_ <? _)%nat = false |- _ => apply Nat.ltb_ge in H
  | H : (_ <=? _)%nat = true |- _ => apply Nat.leb_le in H
  | H : (_ <=? _)%nat = false |- _ => apply Nat.leb_gt in H
  | H : outside _ _ _ = false |- _ => apply outside_false in H
  end; simpl length in *; unfold locb in *; (reflexivity || (exfalso; lia)).

(** A rune decoded from [y] is decoded alike when an ASCII byte follows
    [y]: no continuation byte reaches into it. *)
Lemma DecodeRune_app (y : list ascii) (p : ascii) (rest : list ascii) :
  y <> [] -> byteOf p < RuneSelf ->
  DecodeRuneInString (y ++ p :: rest) = DecodeRuneInString y.
Proof.
  intros Hy Hp. unfold RuneSelf in Hp.
  destruct y as [|c0 [|c1 [|c2 [|c3 y]]]]; [congruence| | | |];
    unfold DecodeRuneInString; simpl app; cbv beta iota zeta;
    case_code; decode_close.
Qed.

Lemma DecodeRune_app_spaces (y post : list ascii) :
  y <> [] -> forallb isAsciiSpace post = true ->
  DecodeRuneInString (y ++ post) = DecodeRuneInString y.
Proof.
  intros Hy Hpost. destruct post as [|p post]; [rewrite app_nil_r; reflexivity|].
  apply DecodeRune_app; [exact Hy|]. apply asciiSpace_small.
  simpl in Hpost. apply andb_true_iff in Hpost. tauto.
Qed.

Lemma DecodeRune_width (s : list ascii) :
  s <> [] -> (1 <= snd (DecodeRuneInString s) <= length s)%nat.
Proof.
  intros Hs. destruct s as [|c0 [|c1 [|c2 [|c3 s]]]]; [congruence| | | |];
    unfold DecodeRuneInString; cbv beta iota zeta;
    case_code; simpl; lia.
Qed.

Lemma scanRuneStart_le (fuel : nat) (s : list ascii) (start lim : Z) :
  scanRuneStart fuel s start lim <= start.
Proof.
  revert start. induction fuel as [|f IH]; intros start; simpl; [lia|].
  case_code; try lia. specialize (IH (start - 1)). lia.
Qed.

Lemma DecodeLastRune_width (s : list ascii) :
  s <> [] -> (1 <= snd (DecodeLastRuneInString s) <= length s)%nat.
Proof.
  intros Hs. unfold DecodeLastRuneInString.
  destruct (rev s) as [|c rs] eqn:Hr.
  { apply (f_equal (@rev ascii)) in Hr. rewrite rev_involutive in Hr. simpl in Hr. subst. congruence. }
  assert (1 <= length s)%nat by (destruct s; [congruence|simpl; lia]).
  destruct (byteOf c <? RuneSelf); [simpl; lia|].
  pose proof (scanRuneStart_le 4 s (Z.of_nat (length s) - 2)
                (Z.max (Z.of_nat (length s) - UTFMax) 0)) as Hle.
  destruct (DecodeRuneInString _) as [r size].
  destruct (_ + Z.of_nat size =? _) eqn:E; simpl; [|lia].
  apply Z.eqb_eq in E. lia.
Qed.

Lemma DecodeLastRune_ascii_end (l : list ascii) (c : ascii) :
  byteOf c < RuneSelf -> DecodeLastRuneInString (l ++ [c]) = (byteOf c, 1%nat).
Proof.
  intros H. unfold DecodeLastRuneInString. rewrite rev_app_distr. cbn [rev app].
  cbv beta iota zeta. apply Z.ltb_lt in H. rewrite H. reflexivity.
Qed.

Lemma indexFunc_spaces (n : nat) (s : list ascii) :
  forallb isAsciiSpace s = true -> indexFunc n s IsSpace false = None.
Proof.
  revert s. induction n as [|n IH]; intros s Hs; [reflexivity|].
  destruct s as [|c s]; [reflexivity|]. simpl in Hs. apply andb_true_iff in Hs as [Hc Hs].
  cbn [indexFunc]. rewrite (DecodeRune_ascii c s (asciiSpace_small c Hc)), (asciiSpace_IsSpace c Hc).
  simpl. rewrite IH by exact Hs. reflexivity.
Qed.

Lemma indexFunc_bound (n : nat) (s : list ascii) (f : Z -> bool) (t : bool) (i : nat) :
  indexFunc n s f t = Some i -> (i < length s)%nat.
Proof.
  revert s i. induction n as [|n IH]; intros s i H; [discriminate|].
  destruct s as [|c s']; [discriminate|].
  pose proof (DecodeRune_width (c :: s') ltac:(congruence)) as Hw.
  cbn [indexFunc] in H. destruct (DecodeRuneInString (c :: s')) as [r w]. simpl in Hw.
  destruct (Bool.eqb (f r) t).
  - inversion H. simpl. lia.
  - destruct (indexFunc n (skipn w (c :: s')) f t) as [j|] eqn:E; [|discriminate].
    simpl in H. inversion H; subst. apply IH in E. rewrite length_skipn in E. lia.
Qed.

(** White space after [x] does not move the first non-space rune of [x]. *)
Lemma indexFunc_app (n m : nat) (x post : list ascii) :
  forallb isAsciiSpace post = true ->
  (length (x ++ post) <= n)%nat -> (length x <= m)%nat ->
  indexFunc n (x ++ post) IsSpace false = indexFunc m x IsSpace false.
Proof.
  intros Hpost. revert m x. induction n as [|n IH]; intros m x Hn Hm.
  - destruct x; [|simpl in Hn; lia]. destruct post; [|simpl in Hn; lia].
    destruct m; reflexivity.
  - destruct x as [|c x'].
    + simpl app. rewrite (indexFunc_spaces (S n) post Hpost). destruct m; reflexivity.
    + destruct m as [|m]; [simpl in Hm; lia|].
      pose proof (DecodeRune_width (c :: x') ltac:(congruence)) as Hw.
      pose proof (DecodeRune_app_spaces (c :: x') post ltac:(congruence) Hpost) as Hd.
      change ((c :: x') ++ post)%list with (c :: x' ++ post)%list in Hd |- *.
      cbn [indexFunc]. rewrite Hd.
      destruct (DecodeRuneInString (c :: x')) as [r w]. simpl in Hw.
      destruct (Bool.eqb (IsSpace r) false); [reflexivity|].
      change (c :: x' ++ post)%list with ((c :: x') ++ post)%list.
      rewrite skipn_app. replace (w - length (c :: x'))%nat with 0%nat by (simpl; lia).
      simpl skipn at 2. rewrite (IH m); [reflexivity| |].
      * rewrite length_app, length_skipn. rewrite length_app in Hn. simpl length in *. lia.
      * rewrite length_skipn. simpl length in *. lia.
Qed.

Lemma TrimLeftFunc_app (x post : list ascii) :
  forallb isAsciiSpace post = true ->
  TrimLeftFunc (x ++ post) IsSpace =
  match TrimLeftFunc x IsSpace with [] => [] | y => (y ++ post)%list end.
Proof.
  intros Hpost. unfold TrimLeftFunc.
  rewrite (indexFunc_app _ (length x) x post Hpost) by lia.
  destruct (indexFunc (length x) x IsSpace false) as [i|] eqn:E; [|reflexivity].
  apply indexFunc_bound in E.
  rewrite skipn_app. replace (i - length x)%nat with 0%nat by lia. simpl skipn at 2.
  destruct (skipn i x) eqn:Es; [|reflexivity].
  apply (f_equal (@length ascii)) in Es. rewrite length_skipn in Es. simpl in Es. lia.
Qed.

Lemma lastIndexFunc_bound (n : nat) (s : list ascii) (f : Z -> bool) (t : bool) (i : nat) :
  lastIndexFunc n s f t = Some i -> (i < length s)%nat.
Proof.
  revert s i. induction n as [|n IH]; intros s i H; [discriminate|].
  destruct s as [|c s']; [discriminate|].
  pose proof (DecodeLastRune_width (c :: s') ltac:(congruence)) as Hw.
  cbn [lastIndexFunc] in H. destruct (DecodeLastRuneInString (c :: s')) as [r w]. simpl in Hw.
  destruct (Bool.eqb (f r) t).
  - inversion H. simpl. lia.
  - apply IH in H. rewrite length_firstn in H. simpl in H |- *. lia.
Qed.

(** Trailing white space is skipped by the backward search. *)
Lemma lastIndexFunc_app (y post : list ascii) (n : nat) :
  forallb isAsciiSpace post = true -> (length (y ++ post) <= n)%nat ->
  lastIndexFunc n (y ++ post) IsSpace false =
  lastIndexFunc (n - length post) y IsSpace false.
Proof.
  revert n. induction post as [|c post IH] using rev_ind; intros n Hpost Hn.
  - rewrite app_nil_r, Nat.sub_0_r. reflexivity.
  - rewrite forallb_app in Hpost. apply andb_true_iff in Hpost as [Hpost Hc].
    simpl in Hc. rewrite andb_true_r in Hc.
    rewrite !length_app in Hn. simpl length in Hn.
    destruct n as [|n]; [lia|].
    rewrite app_assoc.
    assert (exists d s', ((y ++ post) ++ [c])%list = d :: s') as [d [s' Hs]]
      by (destruct (y ++ post)%list; eexists _, _; reflexivity).
    cbn [lastIndexFunc]. rewrite Hs. cbv beta iota. rewrite <- Hs.
    rewrite DecodeLastRune_ascii_end by (apply asciiSpace_small, Hc). cbv beta iota.
    rewrite asciiSpace_IsSpace by exact Hc. cbn [Bool.eqb].
    rewrite (length_app (y ++ post)). simpl length. rewrite Nat.add_sub.
    rewrite firstn_app, Nat.sub_diag, firstn_O, app_nil_r, firstn_all.
    rewrite length_app. simpl length.
    replace (S n - (length post + 1))%nat with (n - length post)%nat by lia.
    apply IH; [exact Hpost|rewrite length_app; lia].
Qed.

Lemma TrimRightFunc_app (y post : list ascii) :
  forallb isAsciiSpace post = true ->
  TrimRightFunc (y ++ post) IsSpace = TrimRightFunc y IsSpace.
Proof.
  intros Hpost. unfold TrimRightFunc.
  rewrite lastIndexFunc_app by (exact Hpost || lia).
  rewrite length_app, Nat.add_sub.
  destruct (lastIndexFunc (length y) y IsSpace false) as [i|] eqn:E; [|reflexivity].
  apply lastIndexFunc_bound in E.
  rewrite app_nth1 by exact E.
  destruct (RuneSelf <=? byteOf (nth i y "000"%char)).
  - rewrite skipn_app. replace (i - length y)%nat with 0%nat by lia. simpl skipn at 2.
    assert (skipn i y <> []) as Hne.
    { intros H. apply (f_equal (@length ascii)) in H. rewrite length_skipn in H. simpl in H. lia. }
    rewrite DecodeRune_app_spaces by assumption.
    pose proof (DecodeRune_width (skipn i y) Hne) as Hw. rewrite length_skipn in Hw.
    rewrite firstn_app. replace (i + snd (DecodeRuneInString (skipn i y)) - length y)%nat
      with 0%nat by lia.
    rewrite firstn_O, app_nil_r. reflexivity.
  - rewrite firstn_app. replace (S i - length y)%nat with 0%nat by lia.
    rewrite firstn_O, app_nil_r. reflexivity.
Qed.

Lemma TrimFunc_app (x post : list ascii) :
  forallb isAsciiSpace post = true ->
  TrimFunc (x ++ post) IsSpace = TrimFunc x IsSpace.
Proof.
  intros Hpost. unfold TrimFunc. rewrite TrimLeftFunc_app by exact Hpost.
  destruct (TrimLeftFunc x IsSpace) as [|c y] eqn:E.
  - reflexivity.
  - rewrite TrimRightFunc_app by exact Hpost. reflexivity.
Qed.

Lemma trimSpaceStart_app (pre y : list ascii) :
  forallb isAsciiSpace pre = true -> trimSpaceStart (pre ++ y) = trimSpaceStart y.
Proof.
  induction pre as [|c pre IH]; intros H; [reflexivity|].
  simpl in H. apply andb_true_iff in H as [Hc H]. simpl.
  rewrite asciiSpace_not_high, Hc by exact Hc. apply IH, H.
Qed.

Lemma trimSpaceStop_app (sp z : list ascii) :
  forallb isAsciiSpace sp = true -> trimSpaceStop (sp ++ z) = trimSpaceStop z.
Proof.
  induction sp as [|c sp IH]; intros H; [reflexivity|].
  simpl in H. apply andb_true_iff in H as [Hc H]. simpl.
  rewrite asciiSpace_not_high, Hc by exact Hc. apply IH, H.
Qed.

(** [strings.TrimSpace] drops ASCII white space around its argument,
    whatever the argument holds, on the fast path and on the Unicode
    fallback alike. *)
Lemma TrimSpace_surrounding (pre l post : list ascii) :
  forallb isAsciiSpace pre = true -> forallb isAsciiSpace post = true ->
  TrimSpace (string_of_list_ascii (pre ++ l ++ post)) = TrimSpace (string_of_list_ascii l).
Proof.
  intros Hpre Hpost. unfold TrimSpace. rewrite !list_ascii_of_string_of_list_ascii.
  rewrite trimSpaceStart_app by exact Hpre. f_equal.
  induction l as [|c l IH].
  - simpl. rewrite <- (app_nil_r post), trimSpaceStart_app by exact Hpost. reflexivity.
  - simpl. destruct (RuneSelf <=? byteOf c).
    + change (c :: l ++ post)%list with ((c :: l) ++ post)%list. apply TrimFunc_app, Hpost.
    + destruct (isAsciiSpace c); [exact IH|].
      change (c :: l ++ post)%list with ((c :: l) ++ post)%list.
      rewrite rev_app_distr, trimSpaceStop_app by (rewrite forallb_rev; exact Hpost).
      reflexivity.
Qed.

End TrimSpaceProps.

(** The deprecated [--lookup] value is read without the ASCII white
    space around it: padding it with spaces, tabs or newlines does not
    change the resulting path style, whatever bytes the value holds
    (the Unicode fallback of [strings.TrimSpace] included). *)
Theorem deprecated_lookup_ignores_surrounding_space (deprecated : bool)
  (pre l post : list ascii) (path : string) :
  forallb isAsciiSpace pre = true -> forallb isAsciiSpace post = true ->
  deprecatedPath deprecated (string_of_list_ascii (pre ++ l ++ post)) path =
  deprecatedPath deprecated (string_of_list_ascii l) path.
Proof.
  intros Hpre Hpost. unfold deprecatedPath.
  rewrite (TrimSpace_surrounding pre l post Hpre Hpost). reflexivity.
Qed.

Lemma deprecated_lookup_ignores_surrounding_space_witness :
  deprecatedPath true (string_of_list_ascii ([" "%char; "009"%char] ++ list_ascii_of_string "dns"
                                             ++ [newline])) "auto" = "off".
Proof.
  rewrite (deprecated_lookup_ignores_surrounding_space true [" "%char; "009"%char]
             (list_ascii_of_string "dns") [newline] "auto"); [|reflexivity|reflexivity].
  reflexivity.
Defined.

(** ** Properties of checkAliasSetSyntax *)

Section AliasSyntaxProps.

Variables (cleanAlias : string -> string)
  (isValidAlias isValidHostURL isValidAccessKey isValidSecretKey isValidAPI
   isValidLookup isValidPath : string -> bool).

(** The syntax check passes exactly when there are two to four
    arguments, the alias, URL, access and secret keys are valid, the
    [--api] value is empty or valid, and the deprecated command's
    [--lookup] value, or else the [--path] value, is valid.  The other
    of these two flags is not looked at. *)
Theorem alias_syntax_ok_iff (args : list string) (api path bucketLookup accessKey secretKey : string)
  (deprecated : bool) :
  checkAliasSetSyntax cleanAlias isValidAlias isValidHostURL isValidAccessKey isValidSecretKey
    isValidAPI isValidLookup isValidPath args api path bucketLookup accessKey secretKey deprecated
  = SyntaxOk
  <-> (2 <= length args <= 4)%nat /\
      isValidAlias (cleanAlias (argGet args 0)) = true /\
      isValidHostURL (argGet args 1) = true /\
      isValidAccessKey accessKey = true /\ isValidSecretKey secretKey = true /\
      (api = "" \/ isValidAPI api = true) /\
      (if deprecated then isValidLookup bucketLookup else isValidPath path) = true.
Proof.
  unfold checkAliasSetSyntax.
  destruct (Nat.eqb_spec (length args) 0) as [H0|H0].
  { split; [discriminate|lia]. }
  destruct (Nat.ltb_spec 4 (length args)) as [H4|H4]; simpl.
  { split; [discriminate|lia]. }
  destruct (Nat.ltb_spec (length args) 2) as [H2|H2]; simpl.
  { split; [discriminate|lia]. }
  destruct (isValidAlias _); simpl; [|split; [discriminate|intuition discriminate]].
  destruct (isValidHostURL _); simpl; [|split; [discriminate|intuition discriminate]].
  destruct (isValidAccessKey _); simpl; [|split; [discriminate|intuition discriminate]].
  destruct (isValidSecretKey _); simpl; [|split; [discriminate|intuition discriminate]].
  destruct (String.eqb_spec api "") as [Ha|Ha]; simpl.
  - destruct deprecated; [destruct (isValidLookup _)|destruct (isValidPath _)]; simpl;
      (split; [intros _; intuition lia|intuition discriminate])
      || (split; [discriminate|intuition discriminate]).
  - destruct (isValidAPI api) eqn:Hv; simpl;
      [|split; [discriminate|intros (_&_&_&_&_&[H|H]&_); [contradiction|discriminate]]].
    destruct deprecated; [destruct (isValidLookup _)|destruct (isValidPath _)]; simpl;
      (split; [intros _; intuition lia|intuition discriminate])
      || (split; [discriminate|intuition discriminate]).
Qed.

End AliasSyntaxProps.

(** ** Properties of FormatInt and admin user detail *)

Lemma fromDigits_snoc (l : list N) (d : N) :
  fromDigits (l ++ [d]) = (10 * fromDigits l + d)%N.
Proof. unfold fromDigits. rewrite fold_left_app. reflexivity. Qed.

Lemma decDigits_small (f : nat) (n : N) : Forall (fun d => (d < 10)%N) (decDigits f n).
Proof.
  revert n. induction f as [|f IH]; intros n; simpl; [constructor|].
  destruct (N.ltb_spec n 10).
  - constructor; [lia|constructor].
  - apply Forall_app. split; [apply IH|]. constructor; [apply N.mod_lt; lia|constructor].
Qed.

Lemma fromDigits_decDigits (f : nat) (n : N) :
  (n < 10 ^ N.of_nat f)%N -> fromDigits (decDigits f n) = n.
Proof.
  revert n. induction f as [|f IH]; intros n Hn; simpl.
  - rewrite N.pow_0_r in Hn. unfold fromDigits. simpl. lia.
  - destruct (N.ltb_spec n 10); [unfold fromDigits; simpl; lia|].
    rewrite fromDigits_snoc, IH.
    + pose proof (N.div_mod n 10). lia.
    + apply N.Div0.div_lt_upper_bound. rewrite Nat2N.inj_succ, N.pow_succ_r' in Hn. lia.
Qed.

Lemma pos_size_nat_bound (p : positive) : (Z.pos p < 2 ^ Z.of_nat (Pos.size_nat p))%Z.
Proof.
  induction p as [p IH|p IH|]; simpl Pos.size_nat; try (simpl; lia);
    rewrite Nat2Z.inj_succ, Z.pow_succ_r by lia; lia.
Qed.

Lemma size_nat_digits_bound (u : N) : (u < 10 ^ N.of_nat (S (N.size_nat u)))%N.
Proof.
  destruct u as [|p]; [simpl; lia|]. simpl N.size_nat.
  apply N2Z.inj_lt. rewrite N2Z.inj_pow, nat_N_Z.
  pose proof (pos_size_nat_bound p) as H.
  assert (2 ^ Z.of_nat (Pos.size_nat p) <= 10 ^ Z.of_nat (S (Pos.size_nat p)))%Z.
  { transitivity (10 ^ Z.of_nat (Pos.size_nat p))%Z.
    - apply Z.pow_le_mono_l. lia.
    - apply Z.pow_le_mono_r; lia. }
  cbn [Z.of_N]. lia.
Qed.

Lemma digits_of_chars (ds : list N) :
  Forall (fun d => (d < 10)%N) ds ->
  map (fun c => (N_of_ascii c - 48)%N) (map digitChar ds) = ds.
Proof.
  induction 1 as [|d ds Hd _ IH]; [reflexivity|].
  simpl. rewrite IH. unfold digitChar. rewrite N_ascii_embedding by lia. f_equal. lia.
Qed.

Lemma digit_string_not_minus (ds : list N) (s : string) :
  Forall (fun d => (d < 10)%N) ds ->
  string_of_list_ascii (map digitChar ds) <> "-" ++ s.
Proof.
  intros Hds. destruct Hds as [|d ds Hd _]; [discriminate|].
  simpl. intros H. injection H as Hc _.
  apply (f_equal N_of_ascii) in Hc. unfold digitChar in Hc.
  rewrite N_ascii_embedding in Hc by lia. change (N_of_ascii "-"%char) with 45%N in Hc. lia.
Qed.

Lemma FormatInt_digits (i : Z) :
  exists ds, Forall (fun d => (d < 10)%N) ds /\ fromDigits ds = Z.to_N (Z.abs i) /\
    FormatInt i = (if (i <? 0)%Z then "-" ++ string_of_list_ascii (map digitChar ds)
                   else string_of_list_ascii (map digitChar ds)).
Proof.
  eexists. split; [apply decDigits_small|]. split; [apply fromDigits_decDigits, size_nat_digits_bound|].
  reflexivity.
Qed.

Lemma digit_strings_inj (ds es : list N) :
  Forall (fun d => (d < 10)%N) ds -> Forall (fun d => (d < 10)%N) es ->
  string_of_list_ascii (map digitChar ds) = string_of_list_ascii (map digitChar es) -> ds = es.
Proof.
  intros Hd He H. apply (f_equal list_ascii_of_string) in H.
  rewrite !list_ascii_of_string_of_list_ascii in H.
  rewrite <- (digits_of_chars ds Hd), <- (digits_of_chars es He), H. reflexivity.
Qed.

Lemma FormatInt_inj (i j : Z) : FormatInt i = FormatInt j -> i = j.
Proof.
  destruct (FormatInt_digits i) as (ds & Hd & Hi & ->).
  destruct (FormatInt_digits j) as (es & He & Hj & ->).
  destruct (Z.ltb_spec i 0) as [Hi0|Hi0]; destruct (Z.ltb_spec j 0) as [Hj0|Hj0]; intros H.
  - injection H as H. apply digit_strings_inj in H; [|assumption|assumption]. subst es.
    rewrite Hi in Hj. apply (f_equal Z.of_N) in Hj. rewrite !Z2N.id in Hj by lia. lia.
  - exfalso. apply (digit_string_not_minus es (string_of_list_ascii (map digitChar ds)) He). symmetry. exact H.
  - exfalso. apply (digit_string_not_minus ds (string_of_list_ascii (map digitChar es)) Hd). exact H.
  - apply digit_strings_inj in H; [|assumption|assumption]. subst es.
    rewrite Hi in Hj. apply (f_equal Z.of_N) in Hj. rewrite !Z2N.id in Hj by lia. lia.
Qed.

(** [strconv.FormatInt(i, 10)] is one-to-one: the decimal string of an
    id determines the id, sign included. *)
Theorem FormatInt_injective (i j : Z) : FormatInt i = FormatInt j -> i = j.
Proof. exact (FormatInt_inj i j). Qed.

Lemma FormatInt_injective_witness : FormatInt (-42) = "-42" /\ (-42 = -42)%Z.
Proof.
  split; [vm_compute; reflexivity|].
  apply (FormatInt_injective (-42) (-42)). reflexivity.
Defined.

Lemma map_FormatInt_inj (xs ys : list Z) : map FormatInt xs = map FormatInt ys -> xs = ys.
Proof.
  revert ys. induction xs as [|x xs IH]; intros [|y ys] H; try discriminate; [reflexivity|].
  simpl in H. injection H as Hx Hs. f_equal; [apply FormatInt_inj; exact Hx|apply IH, Hs].
Qed.

(** A successful [admin user detail] prints the details of the user
    named by the second argument, and the id fields of the message
    decode to exactly the user's primary group id, user id and group
    ids. *)
Theorem admin_detail_ids_decode (args : list string) (newAdminClientR : string -> option perror)
  (getUserDetailR : string -> goerror + Madmin.UserDetail) (o : cmdOutcome) (m : userMessage) :
  mainAdminUserDetail args newAdminClientR getUserDetailR = (o, Some m) ->
  o = CmdDone /\ length args = 2%nat /\
  exists user, getUserDetailR (argGet args 1) = inr user /\ um_AccessKey m = argGet args 1 /\
    (forall g, um_Pgid m = FormatInt g <-> g = Madmin.Pgid user) /\
    (forall u, um_Uid m = FormatInt u <-> u = Madmin.Uid user) /\
    (forall gs, um_Sgids m = map FormatInt gs <-> gs = Madmin.Sgids user).
Proof.
  unfold mainAdminUserDetail. intros H.
  destruct (Nat.eqb_spec (length args) 2) as [Ha|Ha]; simpl in H; [|discriminate].
  destruct (newAdminClientR _); [discriminate|].
  destruct (getUserDetailR (argGet args 1)) as [e|user]; [discriminate|].
  injection H as <- <-. split; [reflexivity|]. split; [exact Ha|].
  exists user. split; [reflexivity|]. split; [reflexivity|]. cbn.
  split; [intros g; split; [intros Hg; symmetry; apply FormatInt_inj, Hg|intros ->; reflexivity]|].
  split; [intros u; split; [intros Hu; symmetry; apply FormatInt_inj, Hu|intros ->; reflexivity]|].
  intros gs; split; [intros Hg; symmetry; apply map_FormatInt_inj, Hg|intros ->; reflexivity].
Qed.

Definition demoUser : Madmin.UserDetail := Madmin.mkUserDetail "enabled" "abc" 1000 1000 [10; -1].

Lemma admin_detail_ids_decode_witness :
  exists m, mainAdminUserDetail ["myminio"; "alice"] (fun _ => None) (fun _ => inr demoUser)
            = (CmdDone, Some m) /\ um_Sgids m = map FormatInt [10; -1].
Proof.
  eexists. split; [reflexivity|].
  destruct (admin_detail_ids_decode ["myminio"; "alice"] (fun _ => None) (fun _ => inr demoUser)
              CmdDone _ eq_refl) as (_ & _ & user & Hu & _ & _ & _ & Hs).
  apply Hs. injection Hu as <-. reflexivity.
Defined.

(** ** Properties of the acl commands *)

Section AclProps.

Variable Acl : Type.
Variable MarshalIndent : Acl -> goerror + string.

(** A successful [acl set] reads the ACL file, connects, sends exactly
    the file's content to the target and prints the target. *)
Theorem acl_set_done_trace (args : list string) (w : aclWorld Acl) (ev : list (aclEvent Acl)) :
  mainAclSet Acl args w = (CmdDone, ev) ->
  length args = 2%nat /\
  exists content, readFileR Acl w (argGet args 1) = inr content /\
    ev = [AclReadFile Acl (argGet args 1); AclNewClient Acl (argGet args 0);
          AclSetCall Acl (argGet args 0) content; AclPrintSet Acl (argGet args 0)].
Proof.
  unfold mainAclSet. intros H.
  destruct (Nat.eqb_spec (length args) 2) as [Ha|Ha]; simpl in H; [|discriminate].
  split; [exact Ha|].
  destruct (readFileR Acl w (argGet args 1)) as [e|content]; [discriminate|].
  destruct (newClientR Acl w _); [discriminate|].
  destruct (aclSetR Acl w _ _); [discriminate|].
  injection H as <-. exists content. split; reflexivity.
Qed.

(** When the ACL file cannot be read, [acl set] stops before creating a
    client: the server is never contacted. *)
Theorem acl_set_unreadable_file_no_client (args : list string) (w : aclWorld Acl) (e : goerror) :
  readFileR Acl w (argGet args 1) = inl e ->
  forall u, ~ In (AclNewClient Acl u) (snd (mainAclSet Acl args w)) /\
            forall content, ~ In (AclSetCall Acl u content) (snd (mainAclSet Acl args w)).
Proof.
  intros He u. unfold mainAclSet.
  destruct (negb (length args =? 2)%nat); [simpl; tauto|].
  rewrite He. simpl. split; [|intros content]; intros [H|[]]; discriminate.
Qed.

(** A successful [acl get] connects, fetches the ACL, writes its
    indented JSON to the [--acl-file] file when one is given, and prints
    the fetched ACL for the target. *)
Theorem acl_get_done_trace (args : list string) (aclFile : string) (w : aclWorld Acl)
  (ev : list (aclEvent Acl)) :
  mainAclGet Acl MarshalIndent args aclFile w = (CmdDone, ev) ->
  exists acld, aclGetR Acl w (argGet args 0) = inr acld /\
    ((aclFile = "" /\
      ev = [AclNewClient Acl (argGet args 0); AclGetCall Acl (argGet args 0);
            AclPrintGet Acl (argGet args 0) acld]) \/
     (aclFile <> "" /\ exists json, MarshalIndent acld = inr json /\
      ev = [AclNewClient Acl (argGet args 0); AclGetCall Acl (argGet args 0);
            AclCreateFile Acl aclFile; AclWriteFile Acl aclFile json;
            AclPrintGet Acl (argGet args 0) acld])).
Proof.
  unfold mainAclGet. intros H.
  destruct (length args =? 0)%nat; [discriminate|].
  destruct (newClientR Acl w _); [discriminate|].
  destruct (aclGetR Acl w (argGet args 0)) as [err|acld]; [discriminate|].
  exists acld. split; [reflexivity|].
  destruct (String.eqb_spec aclFile "") as [Hf|Hf].
  - left. injection H as <-. split; [exact Hf|reflexivity].
  - right. split; [exact Hf|].
    destruct (createR Acl w aclFile); [discriminate|].
    destruct (MarshalIndent acld) as [e|json]; [discriminate|].
    destruct (writeR Acl w aclFile json); [discriminate|].
    injection H as <-. exists json. split; reflexivity.
Qed.

(** [acl get] prints an ACL exactly when it succeeds. *)
Theorem acl_get_prints_iff_done (args : list string) (aclFile : string) (w : aclWorld Acl) :
  (exists p a, In (AclPrintGet Acl p a) (snd (mainAclGet Acl MarshalIndent args aclFile w)))
  <-> fst (mainAclGet Acl MarshalIndent args aclFile w) = CmdDone.
Proof.
  unfold mainAclGet.
  destruct (length args =? 0)%nat; [simpl; split; [intros (pth & acl0 & [])|discriminate]|].
  destruct (newClientR Acl w _);
    [simpl; split; [intros (pth & acl0 & [H|[]]); discriminate|discriminate]|].
  destruct (aclGetR Acl w (argGet args 0)) as [err|acld];
    [simpl; split; [intros (pth & acl0 & [H|[H|[]]]); discriminate|discriminate]|].
  destruct (String.eqb aclFile "").
  - simpl. split; [reflexivity|]. intros _. exists (argGet args 0), acld. tauto.
  - destruct (createR Acl w aclFile);
      [simpl; split; [intros (pth & acl0 & [H|[H|[H|[]]]]); discriminate|discriminate]|].
    destruct (MarshalIndent acld) as [e|json];
      [simpl; split; [intros (pth & acl0 & [H|[H|[H|[]]]]); discriminate|discriminate]|].
    destruct (writeR Acl w aclFile json);
      [simpl; split; [intros (pth & acl0 & [H|[H|[H|[H|[]]]]]); discriminate|discriminate]|].
    simpl. split; [reflexivity|]. intros _. exists (argGet args 0), acld. tauto.
Qed.

(** Without [--acl-file], [acl get] creates and writes no file. *)
Theorem acl_get_no_file_without_flag (args : list string) (w : aclWorld Acl) (n c : string) :
  ~ In (AclCreateFile Acl n) (snd (mainAclGet Acl MarshalIndent args "" w)) /\
  ~ In (AclWriteFile Acl n c) (snd (mainAclGet Acl MarshalIndent args "" w)).
Proof.
  unfold mainAclGet. simpl String.eqb. cbv beta iota zeta.
  destruct (length args =? 0)%nat; [simpl; tauto|].
  destruct (newClientR Acl w _); [simpl; split; intros [H|[]]; discriminate|].
  destruct (aclGetR Acl w (argGet args 0)) as [err|acld];
    simpl; split; intros H; repeat destruct H as [H|H]; (discriminate || contradiction).
Qed.

End AclProps.

Lemma acl_set_done_trace_witness :
  length ["play/bucket"; "acl.json"] = 2%nat /\
  exists content, readFileR unit demoAclWorld "acl.json" = inr content /\
    snd (mainAclSet unit ["play/bucket"; "acl.json"] demoAclWorld) =
      [AclReadFile unit "acl.json"; AclNewClient unit "play/bucket";
       AclSetCall unit "play/bucket" content; AclPrintSet unit "play/bucket"].
Proof.
  destruct (acl_set_done_trace unit ["play/bucket"; "acl.json"] demoAclWorld
              (snd (mainAclSet unit ["play/bucket"; "acl.json"] demoAclWorld)) eq_refl)
    as [Ha (content & Hc & He)].
  split; [exact Ha|]. exists content. split; [exact Hc|exact He].
Defined.

Lemma acl_set_unreadable_file_no_client_witness :
  ~ In (AclNewClient unit "play/bucket")
      (snd (mainAclSet unit ["play/bucket"; "acl.json"] missingFileWorld)).
Proof.
  exact (proj1 (acl_set_unreadable_file_no_client unit ["play/bucket"; "acl.json"] missingFileWorld
                  (ErrMsg "open acl.json: no such file or directory") eq_refl "play/bucket")).
Defined.

Lemma acl_get_done_trace_witness :
  exists acld, aclGetR unit demoAclWorld "play/bucket" = inr acld /\
    exists json, demoMarshal acld = inr json /\
    snd (mainAclGet unit demoMarshal ["play/bucket"] "acl.json" demoAclWorld) =
      [AclNewClient unit "play/bucket"; AclGetCall unit "play/bucket";
       AclCreateFile unit "acl.json"; AclWriteFile unit "acl.json" json;
       AclPrintGet unit "play/bucket" acld].
Proof.
  destruct (acl_get_done_trace unit demoMarshal ["play/bucket"] "acl.json" demoAclWorld
              (snd (mainAclGet unit demoMarshal ["play/bucket"] "acl.json" demoAclWorld)) eq_refl)
    as (acld & Hg & [[Hf _]|[_ (json & Hm & He)]]); [discriminate|].
  exists acld. split; [exact Hg|]. exists json. split; [exact Hm|exact He].
Defined.
